(** * ExCGF: the CGF archive opener and extractor of Triangle-Engine-Tools

    A shallow embedding of [src/ExCGF.py] and the properties of its archive
    opener ([CgfOpener.try_open]) and extractor ([extract_file]).

    - [Py] models the fragments of the Python runtime the program relies on:
      [bytes] and [str] values, slicing, [struct.unpack('<I', _)],
      [bytes.decode('utf-8')], [str.rstrip], [str.lower], [str.endswith],
      binary file handles and the [for i in range(n)] loop.
    - [ExCGF] is the program itself, definition by definition.
    - [Layout] reads an archive file record by record, [Samples] holds
      the example files.
    - [Synth] builds synthetic archives following the binary layout of the
      specification; it is used by the round-trip properties only.
    - [Cli] is [main] and [extract_file] with what they ask of, and do to,
      their environment. *)

From Stdlib Require Import ZArith List Bool Lia Ascii String.
From Stdlib.Strings Require Import Byte.
Import ListNotations.
Local Open Scope Z_scope.

(** [length] is the length of a list throughout. *)
Abbreviation length := Datatypes.length.

(* ================================================================== *)
(** * The Python runtime fragment *)
(* ================================================================== *)

Module Py.

(** [bytes] objects and [str] objects (sequences of Unicode code points). *)
Definition bytes := list byte.
Definition str := list Z.

Definition byte_val (b : byte) : Z := Z.of_N (Byte.to_N b).

(** A [str] literal. *)
Definition lit (s : string) : str :=
  map (fun a => Z.of_N (N_of_ascii a)) (list_ascii_of_string s).

(** The exceptions the program can meet. *)
Inductive exn : Set :=
| struct_error
| UnicodeDecodeError
| OSError
| ValueError
| OverflowError
| MemoryError.

(** Control outcome of a block of statements: it falls through with a value,
    executes [return None], or raises. *)
Inductive res (A : Type) : Type :=
| Value (a : A)
| ReturnNone
| Raise (e : exn).
Arguments Value {A} a.
Arguments ReturnNone {A}.
Arguments Raise {A} e.

Definition bind {A B} (c : res A) (k : A -> res B) : res B :=
  match c with
  | Value a => k a
  | ReturnNone => ReturnNone
  | Raise e => Raise e
  end.

Notation "x <- c ;; k" := (bind c (fun x => k))
  (at level 61, c at next level, right associativity).
Notation "' pat <- c ;; k" :=
  (bind c (fun x => match x with pat => k end))
  (at level 61, pat pattern, c at next level, right associativity).

(** [l[a:b]] for non-negative [a] and [b]; slicing clamps to the sequence. *)
Definition slice {A} (l : list A) (a b : Z) : list A :=
  firstn (Z.to_nat (b - a)) (skipn (Z.to_nat a) l).

(** [struct.unpack('<I', b)[0]]: exactly four bytes, little endian. *)
Definition unpack_u32 (b : bytes) : res Z :=
  match b with
  | [b0; b1; b2; b3] =>
      Value (byte_val b0 + byte_val b1 * 2 ^ 8
             + byte_val b2 * 2 ^ 16 + byte_val b3 * 2 ^ 24)
  | _ => Raise struct_error
  end.

(** ** [bytes.decode('utf-8')]

    The strict decoder: exactly the well-formed byte sequences of the Unicode
    standard (no overlong forms, no surrogates, nothing above U+10FFFF);
    anything else raises [UnicodeDecodeError], here [None]. *)
Definition in_range (lo hi : Z) (b : byte) : bool :=
  (lo <=? byte_val b) && (byte_val b <=? hi).

Definition cont (b : byte) : bool := in_range 0x80 0xBF b.
Definition cbits (b : byte) : Z := byte_val b - 0x80.

(** Admissible second byte after the lead byte [c0] of a 3-byte form. *)
Definition second3 (c0 : Z) (b1 : byte) : bool :=
  if c0 =? 0xE0 then in_range 0xA0 0xBF b1
  else if c0 =? 0xED then in_range 0x80 0x9F b1
  else cont b1.

(** Admissible second byte after the lead byte [c0] of a 4-byte form. *)
Definition second4 (c0 : Z) (b1 : byte) : bool :=
  if c0 =? 0xF0 then in_range 0x90 0xBF b1
  else if c0 =? 0xF4 then in_range 0x80 0x8F b1
  else cont b1.

Fixpoint decode_utf8 (bs : bytes) : option str :=
  match bs with
  | [] => Some []
  | b0 :: t0 =>
      let c0 := byte_val b0 in
      if c0 <? 0x80 then option_map (cons c0) (decode_utf8 t0)
      else if (0xC2 <=? c0) && (c0 <=? 0xDF) then
        match t0 with
        | b1 :: t1 =>
            if cont b1
            then option_map (cons ((c0 - 0xC0) * 64 + cbits b1))
                            (decode_utf8 t1)
            else None
        | _ => None
        end
      else if (0xE0 <=? c0) && (c0 <=? 0xEF) then
        match t0 with
        | b1 :: b2 :: t2 =>
            if second3 c0 b1 && cont b2
            then option_map
                   (cons ((c0 - 0xE0) * 4096 + cbits b1 * 64 + cbits b2))
                   (decode_utf8 t2)
            else None
        | _ => None
        end
      else if (0xF0 <=? c0) && (c0 <=? 0xF4) then
        match t0 with
        | b1 :: b2 :: b3 :: t3 =>
            if second4 c0 b1 && cont b2 && cont b3
            then option_map
                   (cons ((c0 - 0xF0) * 262144 + cbits b1 * 4096
                          + cbits b2 * 64 + cbits b3))
                   (decode_utf8 t3)
            else None
        | _ => None
        end
      else None
  end.

Definition decode (bs : bytes) : res str :=
  match decode_utf8 bs with
  | Some s => Value s
  | None => Raise UnicodeDecodeError
  end.

(** ** [str] methods *)

Definition is_nil {A} (l : list A) : bool :=
  match l with [] => true | _ => false end.

(** [s.rstrip(c)] for a one-character argument. *)
Fixpoint rstrip (c : Z) (s : str) : str :=
  match s with
  | [] => []
  | x :: t =>
      let t' := rstrip c t in
      if (x =? c) && is_nil t' then [] else x :: t'
  end.

(** [c in s] *)
Definition contains (c : Z) (s : str) : bool := existsb (Z.eqb c) s.

(** [s.lower()].  Only the ASCII letters are mapped; every other code point
    is kept.  The program uses [lower] only in [name.lower().endswith('.iaf')],
    and no code point outside ASCII has a lowercase mapping that ends with
    one of [.], [i], [a], [f] (U+0130 lowers to [i] followed by U+0307), so
    that test is not affected. *)
Definition lower_cp (c : Z) : Z :=
  if (0x41 <=? c) && (c <=? 0x5A) then c + 0x20 else c.
Definition lower (s : str) : str := map lower_cp s.

Fixpoint str_eqb (a b : str) : bool :=
  match a, b with
  | [], [] => true
  | x :: a', y :: b' => (x =? y) && str_eqb a' b'
  | _, _ => false
  end.

(** [s.endswith(suffix)] *)
Definition endswith (s suffix : str) : bool :=
  (length suffix <=? length s)%nat
  && str_eqb (skipn (length s - length suffix) s) suffix.

(** ** Binary file handles: the content and the current position. *)
Record File : Type := mkFile { content : bytes; pos : Z }.

(** [open(filename, 'rb')] on a file holding [data]. *)
Definition open_rb (data : bytes) : File := mkFile data 0.

(** Limits of the platform.  Where [seek] and [read] stop succeeding
    depends on the file system and on the memory of the machine.  The model
    fixes a 64-bit Linux with an ext4 file system of 4 KiB blocks, whose
    largest file position is [2^44 - 4096], and a machine that grants a
    [bytes] object of up to 4 GiB.  The program itself asks for positions
    and sizes below [2^30] only: masked offsets, their differences, and an
    index of less than 3.2 MB. *)
Definition max_position : Z := 2 ^ 44 - 4096.
Definition max_alloc : Z := 2 ^ 32.

(** [f.seek(p)].  The position is converted to a signed 64-bit offset
    first, [ValueError] if it does not fit; the system refuses a negative
    position, and one beyond the largest the file system has, with
    [OSError]; a position past the end of the file is accepted. *)
Definition seek (f : File) (p : Z) : res File :=
  if (p <? - 2 ^ 63) || (2 ^ 63 <=? p) then Raise ValueError
  else if (p <? 0) || (max_position <? p) then Raise OSError
  else Value (mkFile (content f) p).

(** [f.seek(0, 2)] *)
Definition seek_end (f : File) : File :=
  mkFile (content f) (Z.of_nat (length (content f))).

(** [f.tell()] *)
Definition tell (f : File) : Z := pos f.

(** [f.read(n)] on a buffered binary file.  The argument is converted to a
    signed 64-bit size first, [OverflowError] if it does not fit; a size
    below [-1] is refused with [ValueError]; [-1] reads everything up to the
    end of the file.  Otherwise a [bytes] object of [n] bytes is allocated
    for the result, whatever the file holds: this is refused with
    [OverflowError] when [n] and the 33 bytes of the object's header exceed
    [2^63 - 1], and with [MemoryError] when the machine does not grant it;
    then at most [n] bytes are read from the position on, fewer at the end
    of the file. *)
Definition read (f : File) (n : Z) : res (bytes * File) :=
  if (n <? - 2 ^ 63) || (2 ^ 63 <=? n) then Raise OverflowError
  else if n <? -1 then Raise ValueError
  else if 2 ^ 63 - 34 <? n then Raise OverflowError
  else if max_alloc <? n then Raise MemoryError
  else
    let rest := skipn (Z.to_nat (pos f)) (content f) in
    let b := if n =? -1 then rest else firstn (Z.to_nat n) rest in
    Value (b, mkFile (content f) (pos f + Z.of_nat (length b))).

(** ** [for i in range(n): s = body(i, s)], with [i] starting at [i0]. *)
Fixpoint for_range {S : Type} (n : nat) (i0 : Z)
         (body : Z -> S -> res S) (s : S) : res S :=
  match n with
  | O => Value s
  | Datatypes.S n' => s' <- body i0 s ;; for_range n' (i0 + 1) body s'
  end.

End Py.

Import Py.

(* ================================================================== *)
(** * The program: src/ExCGF.py *)
(* ================================================================== *)

Module ExCGF.

(** [class Entry] and its subclass [CgfEntry], which adds [flags]. *)
Inductive Entry : Type :=
| Entry_ (name type : str) (offset size : Z)
| CgfEntry (name type : str) (offset size flags : Z).

Definition name (e : Entry) : str :=
  match e with Entry_ n _ _ _ | CgfEntry n _ _ _ _ => n end.
Definition type (e : Entry) : str :=
  match e with Entry_ _ t _ _ | CgfEntry _ t _ _ _ => t end.
Definition offset (e : Entry) : Z :=
  match e with Entry_ _ _ o _ | CgfEntry _ _ o _ _ => o end.
Definition size (e : Entry) : Z :=
  match e with Entry_ _ _ _ s | CgfEntry _ _ _ s _ => s end.
(** The [flags] attribute exists on a [CgfEntry] only. *)
Definition flags (e : Entry) : option Z :=
  match e with Entry_ _ _ _ _ => None | CgfEntry _ _ _ _ f => Some f end.

Record ArcFile : Type := mkArcFile { filename : str; entries : list Entry }.

(** [x & ~0xC0000000] *)
Definition mask (x : Z) : Z := Z.land x (Z.lnot 0xC0000000).

(** [CgfOpener.is_sane_count] *)
Definition is_sane_count (count : Z) : bool :=
  (0 <? count) && (count <? 100000).

(** The nine characters of the raw string tested by [is_valid_entry_name],
    as code points: backslash, slash, colon, star, question mark, double
    quote, less-than, greater-than and vertical bar. *)
Definition forbidden : str :=
  [92; 47; 58; 42; 63; 34; 60; 62; 124].

(** [CgfOpener.is_valid_entry_name], as the truth value the caller tests. *)
Definition is_valid_entry_name (name : str) : bool :=
  negb (is_nil name) && negb (existsb (fun c => contains c name) forbidden).

(** Lines 37-44: the layout test, giving [(entry_size, next_offset)]. *)
Definition select_layout (count offset1 offset2 : Z) : option (Z * Z) :=
  if 4 + count * 0x14 =? mask offset1 then Some (0x14, offset1)
  else if 4 + count * 0x20 =? mask offset2 then Some (0x20, offset2)
  else None.

(** Lines 67-70: the entry object built for a record. *)
Definition make_entry (name : str) (offset size flags : Z) : Entry :=
  if (flags =? 1) || endswith (lower name) (lit ".iaf")
  then Entry_ name (lit "image") offset size
  else CgfEntry name (lit "image") offset size flags.

(** The variables the loop of [try_open] updates. *)
Record LoopState : Type := mkLoopState {
  st_file : File;
  st_next_offset : Z;
  st_dir : list Entry
}.

(** Lines 52-72: one iteration of the loop. *)
Definition loop_body (count entry_size : Z) (index_data : bytes)
           (i : Z) (st : LoopState) : res LoopState :=
  name <- decode (slice index_data (i * entry_size)
                        (i * entry_size + entry_size - 4)) ;;
  let name := rstrip 0 name in
  if negb (is_valid_entry_name name) then ReturnNone
  else
    let flags := Z.shiftr (st_next_offset st) 30 in
    let offset := mask (st_next_offset st) in
    fn <- (if i + 1 =? count
           then let file := seek_end (st_file st) in
                Value (file, tell file)
           else v <- unpack_u32 (slice index_data
                                   ((i + 1) * entry_size + entry_size - 4)
                                   ((i + 2) * entry_size)) ;;
                Value (st_file st, v)) ;;
    let size := mask (snd fn) - offset in
    let entry := make_entry name offset size flags in
    Value (mkLoopState (fst fn) (snd fn) (st_dir st ++ [entry])).

(** [CgfOpener.try_open], on a file [filename] holding [data]. *)
Definition try_open (filename : str) (data : bytes) : res ArcFile :=
  let file := open_rb data in
  '(b, file) <- read file 4 ;;
  count <- unpack_u32 b ;;
  if negb (is_sane_count count) then ReturnNone
  else
    file <- seek file 0x14 ;;
    '(b, file) <- read file 4 ;;
    offset1 <- unpack_u32 b ;;
    file <- seek file 0x20 ;;
    '(b, file) <- read file 4 ;;
    offset2 <- unpack_u32 b ;;
    match select_layout count offset1 offset2 with
    | None => ReturnNone
    | Some (entry_size, next_offset) =>
        let index_size := entry_size * count in
        file <- seek file 4 ;;
        '(index_data, file) <- read file index_size ;;
        st <- for_range (Z.to_nat count) 0
                (loop_body count entry_size index_data)
                (mkLoopState file next_offset []) ;;
        Value (mkArcFile filename (st_dir st))
    end.

(** [extract_file]: the bytes written to the destination file, and how the
    call ends.  [makedirs], the path and the final [print] are left out, and
    both files are taken to open.  When [seek] or [read] raises, the
    destination holds the 4 bytes already written. *)
Definition extract_file (arc_data : bytes) (entry : Entry)
  : bytes * res unit :=
  let arc := open_rb arc_data in
  let out := [] in
  let out := out ++ [x00; x00; x00; x00] in
  match (arc <- seek arc (offset entry) ;; read arc (size entry)) with
  | Value (content, arc) =>
      let modified_content := [x00; x00; x00] ++ skipn 3 content in
      let out := out ++ modified_content in
      (out, Value tt)
  | ReturnNone => (out, ReturnNone)
  | Raise e => (out, Raise e)
  end.

End ExCGF.

(* ================================================================== *)
(** * Reading an archive file record by record *)
(* ================================================================== *)

Module Layout.

Import ExCGF.

(** Total length of the file, what [file.tell()] gives after [seek(0, 2)]. *)
Definition file_len (data : bytes) : Z := Z.of_nat (length data).

(** The little-endian u32 at file offset [p]. *)
Definition u32_at (data : bytes) (p : Z) : res Z :=
  unpack_u32 (slice data p (p + 4)).

(** Record [i] of the index starts at file offset [4 + i * entry_size]:
    its name field, and its trailing 4-byte field. *)
Definition name_bytes (data : bytes) (entry_size i : Z) : bytes :=
  slice data (4 + i * entry_size) (4 + i * entry_size + entry_size - 4).

Definition trailing_field (data : bytes) (entry_size i : Z) : res Z :=
  u32_at data (4 + i * entry_size + entry_size - 4).

Definition val_or {A} (d : A) (r : res A) : A :=
  match r with Value a => a | _ => d end.

(** The decoded, null-stripped name of record [i]. *)
Definition name_at (data : bytes) (entry_size i : Z) : str :=
  rstrip 0 (val_or [] (decode (name_bytes data entry_size i))).

(** The packed field of record [i], and the value that follows it: the
    packed field of record [i + 1], or the file length after the last. *)
Definition cur (data : bytes) (entry_size i : Z) : Z :=
  val_or 0 (trailing_field data entry_size i).

Definition nxt (data : bytes) (count entry_size i : Z) : Z :=
  if i + 1 =? count then file_len data else cur data entry_size (i + 1).

(** The entry the opener builds for record [i]. *)
Definition entry_at (data : bytes) (count entry_size i : Z) : Entry :=
  make_entry (name_at data entry_size i)
             (mask (cur data entry_size i))
             (mask (nxt data count entry_size i) - mask (cur data entry_size i))
             (Z.shiftr (cur data entry_size i) 30).

(** [i, i + 1, ..., i + n - 1]: the values [range] goes through. *)
Fixpoint zseq (i : Z) (n : nat) : list Z :=
  match n with
  | O => []
  | S n' => i :: zseq (i + 1) n'
  end.

(** The directory the opener builds from [count] records. *)
Definition directory (data : bytes) (count entry_size : Z) : list Entry :=
  map (entry_at data count entry_size) (zseq 0 (Z.to_nat count)).

(** The header passes the checks of [try_open]: a sane count, both probe
    values readable, and a layout selected. *)
Definition header (data : bytes) (count entry_size : Z) : Prop :=
  u32_at data 0 = Value count /\
  is_sane_count count = true /\
  exists offset1 offset2 first,
    u32_at data 0x14 = Value offset1 /\
    u32_at data 0x20 = Value offset2 /\
    select_layout count offset1 offset2 = Some (entry_size, first).

(** Record [i] has a name that decodes to a valid entry name. *)
Definition name_ok (data : bytes) (entry_size i : Z) : Prop :=
  exists nm, decode (name_bytes data entry_size i) = Value nm /\
             is_valid_entry_name (rstrip 0 nm) = true.

(** Record [i] is complete in the file (its trailing field is readable). *)
Definition field_ok (data : bytes) (entry_size i : Z) : Prop :=
  exists v, trailing_field data entry_size i = Value v.

(** The index block: the [entry_size * count] bytes from file offset 4 on,
    fewer in a shorter file, as [try_open] reads them. *)
Definition index_block (data : bytes) (entry_size count : Z) : bytes :=
  firstn (Z.to_nat (entry_size * count)) (skipn (Z.to_nat 4) data).

(** The loop of [try_open] on the file [data], from its initial state. *)
Definition run_loop (data : bytes) (count entry_size next_offset : Z)
           (n : nat) : res LoopState :=
  for_range n 0
    (loop_body count entry_size (index_block data entry_size count))
    (mkLoopState (mkFile data (4 + Z.of_nat (length (index_block data entry_size count))))
                 next_offset []).

(** The two kinds of the specification: a plain [Entry] is [Generic], a
    [CgfEntry] is [Image] and carries its flags. *)
Inductive Kind : Type := Generic | Image (fl : Z).

Definition kind_of (e : Entry) : Kind :=
  match e with
  | Entry_ _ _ _ _ => Generic
  | CgfEntry _ _ _ _ f => Image f
  end.

(** Ends with [.iaf], letter case ignored: the last four code points are
    a dot, then [i] or [I], [a] or [A], [f] or [F]. *)
Definition ends_iaf (n : str) : bool :=
  match rev n with
  | f :: a :: i :: dot :: _ =>
      ((f =? 0x66) || (f =? 0x46)) && ((a =? 0x61) || (a =? 0x41))
      && ((i =? 0x69) || (i =? 0x49)) && (dot =? 0x2E)
  | _ => false
  end.

(** Sum of the [size] attributes of a directory. *)
Definition sum_sizes (d : list Entry) : Z :=
  fold_right (fun e acc => size e + acc) 0 d.

(** The directory is a chain: each entry starts where the previous ends. *)
Fixpoint chained (d : list Entry) : Prop :=
  match d with
  | e1 :: ((e2 :: _) as rest) => offset e1 + size e1 = offset e2 /\ chained rest
  | _ => True
  end.

(** Where the last entry ends ([start] for an empty directory). *)
Definition end_of (start : Z) (d : list Entry) : Z :=
  match rev d with
  | e :: _ => offset e + size e
  | [] => start
  end.

(** Two loop states that differ at most in the bytes of the file, not in
    its length; and two runs that end alike, in such states. *)
Definition same_state (a b : LoopState) : Prop :=
  st_next_offset a = st_next_offset b /\
  st_dir a = st_dir b /\
  length (content (st_file a)) = length (content (st_file b)).

Definition same_outcome (r r' : res LoopState) : Prop :=
  match r, r' with
  | Value a, Value b => same_state a b
  | ReturnNone, ReturnNone => True
  | Raise e, Raise e' => e = e'
  | _, _ => False
  end.

End Layout.

(* ================================================================== *)
(** * Synthetic archives *)
(* ================================================================== *)

Module Synth.

Import ExCGF.

(** The synthetic archives of the round-trip property.  The program only
    reads archives, so the builder is written after the binary layout the
    specification gives: a little-endian [count], then [count] records of
    [record_size] bytes, each a null-padded UTF-8 name followed by the
    packed field [(flags << 30) | offset], then the payloads, laid out
    contiguously after the index.  [try_open], which the round trip is
    about, is the program's. *)

Definition byte_of (z : Z) : byte :=
  match Byte.of_N (Z.to_N z) with Some b => b | None => x00 end.

(** [struct.pack('<I', v)] *)
Definition pack_u32 (v : Z) : bytes :=
  map byte_of [v mod 256; (v / 2 ^ 8) mod 256;
               (v / 2 ^ 16) mod 256; (v / 2 ^ 24) mod 256].

(** UTF-8 encoding of one code point. *)
Definition encode_cp (c : Z) : list Z :=
  if c <? 0x80 then [c]
  else if c <? 0x800 then [0xC0 + c / 64; 0x80 + c mod 64]
  else if c <? 0x10000 then
    [0xE0 + c / 4096; 0x80 + (c / 64) mod 64; 0x80 + c mod 64]
  else
    [0xF0 + c / 262144; 0x80 + (c / 4096) mod 64;
     0x80 + (c / 64) mod 64; 0x80 + c mod 64].

(** [s.encode('utf-8')] *)
Definition encode (s : str) : bytes :=
  flat_map (fun c => map byte_of (encode_cp c)) s.

(** What the builder is given for one entry. *)
Record Item : Type := mkItem {
  it_name : str;
  it_flags : Z;
  it_payload : bytes
}.

Definition plen (it : Item) : Z := Z.of_nat (length (it_payload it)).

Definition name_field (record_size : Z) (n : str) : bytes :=
  let e := encode n in
  e ++ repeat x00 (Z.to_nat (record_size - 4) - length e).

Definition pack_field (fl off : Z) : Z := Z.lor (Z.shiftl fl 30) off.

Definition record (record_size : Z) (it : Item) (off : Z) : bytes :=
  name_field record_size (it_name it) ++ pack_u32 (pack_field (it_flags it) off).

(** The index block, the first payload starting at [off]. *)
Fixpoint index (record_size : Z) (items : list Item) (off : Z) : bytes :=
  match items with
  | [] => []
  | it :: rest =>
      record record_size it off ++ index record_size rest (off + plen it)
  end.

Definition payloads (items : list Item) : bytes := flat_map it_payload items.

Definition count_of (items : list Item) : Z := Z.of_nat (length items).

Definition serialize (record_size : Z) (items : list Item) : bytes :=
  pack_u32 (count_of items)
  ++ index record_size items (4 + count_of items * record_size)
  ++ payloads items.

(** What the builder asks of its input.  A code point that UTF-8 can
    encode: a Unicode scalar value. *)
Definition scalar (c : Z) : Prop :=
  0 <= c < 0xD800 \/ 0xE000 <= c < 0x110000.

(** A valid name for a record of [record_size] bytes: encodable, accepted
    by [is_valid_entry_name], not ending with a null character, and short
    enough for the name field. *)
Definition name_fits (record_size : Z) (n : str) : Prop :=
  Forall scalar n /\
  is_valid_entry_name n = true /\
  rstrip 0 n = n /\
  Z.of_nat (length (encode n)) <= record_size - 4.

Definition item_ok (record_size : Z) (it : Item) : Prop :=
  name_fits record_size (it_name it) /\ 0 <= it_flags it <= 3.

(** The kind the flags and the name call for. *)
Definition expected_kind (it : Item) : Layout.Kind :=
  if (it_flags it =? 1) || Layout.ends_iaf (it_name it)
  then Layout.Generic else Layout.Image (it_flags it).

Definition expected_entry (it : Item) (off : Z) : Entry :=
  match expected_kind it with
  | Layout.Generic => Entry_ (it_name it) (lit "image") off (plen it)
  | Layout.Image fl => CgfEntry (it_name it) (lit "image") off (plen it) fl
  end.

(** The directory the archive was built from, the first payload at [off]. *)
Fixpoint expected (items : list Item) (off : Z) : list Entry :=
  match items with
  | [] => []
  | it :: rest => expected_entry it off :: expected rest (off + plen it)
  end.

(** Total length of the payloads. *)
Definition total (items : list Item) : Z :=
  fold_right (fun it acc => plen it + acc) 0 items.

End Synth.

(* ================================================================== *)
(** * Sample files *)
(* ================================================================== *)

Module Samples.

Import ExCGF Layout Synth.

(** The bytes of an ASCII literal, [b'...']. *)
Definition ascii_bytes (s : string) : bytes := map byte_of (lit s).

Definition archive_name : str := lit "sample.cgf".

(** One record of 0x14 bytes named [A.IMG], flags 0, whose trailing field
    holds [field], followed by [payload]. *)
Definition one_record (field : Z) (payload : bytes) : bytes :=
  pack_u32 1 ++ name_field 0x14 (lit "A.IMG") ++ pack_u32 field ++ payload.

(** The archive of the end-to-end example, 10 payload bytes: with the
    trailing field 0, with the trailing field 0x18, and cut at 0x14 + 10
    bytes. *)
Definition example_field_0 : bytes := one_record 0 (ascii_bytes "0123456789").
Definition example_field_18 : bytes :=
  serialize 0x14 [mkItem (lit "A.IMG") 0 (ascii_bytes "0123456789")].
Definition example_cut : bytes := firstn (0x14 + 10) example_field_0.

(** The same archive with 12 payload bytes: 0x24 bytes in all. *)
Definition example_12 : bytes :=
  serialize 0x14 [mkItem (lit "A.IMG") 0 (ascii_bytes "0123456789ab")].

(** A one-entry archive of the 0x14 layout with an empty payload. *)
Definition tiny_items : list Item := [mkItem (lit "a.iaf") 1 []].
Definition tiny : bytes := serialize 0x14 tiny_items.

(** Three entries in the 0x20 layout. *)
Definition three_items : list Item :=
  [mkItem (lit "A.IMG") 2 (ascii_bytes "0123456789ab");
   mkItem (lit "b.IaF") 3 (ascii_bytes "xyz");
   mkItem (0x20AC :: lit "c.iafx") 1 (ascii_bytes "payload")].
Definition three : bytes := serialize 0x20 three_items.

(** One entry in the 0x20 layout whose name has, at file offset 0x14, the
    four bytes of [0x40000018]: masked, that is [4 + 1 * 0x14]. *)
Definition spurious_items : list Item :=
  [mkItem (repeat 0x61 16 ++ [0x18; 0; 0; 0x40]) 0
          (ascii_bytes "0123456789ab")].
Definition spurious : bytes := serialize 0x20 spurious_items.

(** Three records of 0x14 bytes whose stored offsets are 64, 80 and 70, in
    a file of 100 bytes. *)
Definition unordered : bytes :=
  pack_u32 3
  ++ name_field 0x14 (lit "a") ++ pack_u32 64
  ++ name_field 0x14 (lit "b") ++ pack_u32 80
  ++ name_field 0x14 (lit "c") ++ pack_u32 70
  ++ repeat x00 36.

(** A header that selects the 0x14 layout, and a name field that starts
    with the byte 0xFF. *)
Definition bad_utf8 : bytes :=
  pack_u32 1 ++ (xff :: repeat x00 15) ++ pack_u32 0x18 ++ repeat x00 12.

(** Sane count, no layout equation satisfied. *)
Definition no_layout : bytes := pack_u32 1 ++ repeat x00 32.

(** Count 0. *)
Definition zero_count : bytes := repeat x00 36.

(** Count 1 in a file of 32 bytes: zero at 0x14, nothing at 0x20. *)
Definition short32 : bytes := pack_u32 1 ++ repeat x00 28.

(** Two records of 0x14 bytes, the second named [a|b]; and the same file
    cut at 42 bytes, inside the trailing field of the second record. *)
Definition bad_second : bytes :=
  pack_u32 2
  ++ name_field 0x14 (lit "a") ++ pack_u32 44
  ++ name_field 0x14 (lit "a|b") ++ pack_u32 44.
Definition cut42 : bytes := firstn 42 bad_second.

(** The state of the loop of [try_open] on [three] before and after its
    second iteration. *)
Definition three_state_1 : LoopState :=
  mkLoopState (mkFile three 100) 3221225584
    [CgfEntry (lit "A.IMG") (lit "image") 100 12 2].
Definition three_state_2 : LoopState :=
  mkLoopState (mkFile three 100) 1073741939
    [CgfEntry (lit "A.IMG") (lit "image") 100 12 2;
     Entry_ (lit "b.IaF") (lit "image") 112 3].

(** The directories [try_open] returns for [three] and [unordered]. *)
Definition three_arc : ArcFile :=
  mkArcFile archive_name
    [CgfEntry (lit "A.IMG") (lit "image") 100 12 2;
     Entry_ (lit "b.IaF") (lit "image") 112 3;
     Entry_ (0x20AC :: lit "c.iafx") (lit "image") 115 7].

Definition unordered_arc : ArcFile :=
  mkArcFile archive_name
    [CgfEntry (lit "a") (lit "image") 64 16 0;
     CgfEntry (lit "b") (lit "image") 80 (-10) 0;
     CgfEntry (lit "c") (lit "image") 70 30 0].

(** The entry of [example_12]. *)
Definition example_entry : Entry :=
  CgfEntry (lit "A.IMG") (lit "image") 0x18 12 0.

(** A file of exactly [2 ^ 30] bytes: [example_12] followed by zeros. *)
Definition gib : bytes := example_12 ++ repeat x00 (Z.to_nat (2 ^ 30 - 36)).

End Samples.

(* ================================================================== *)
(** * The command line: [extract_file] with its effects, and [main] *)
(* ================================================================== *)

Module Cli.

Import ExCGF.

(** The bytes [extract_file] reads for an entry once [seek] has succeeded:
    what [read] returns at [offset] for [size]; empty when [read] raises. *)
Definition content_of (arc_data : bytes) (entry : Entry) : bytes :=
  match read (mkFile arc_data (offset entry)) (size entry) with
  | Value (b, _) => b
  | _ => []
  end.

(** What [extract_file] writes for content [C]. *)
Definition transformed (C : bytes) : bytes :=
  [x00; x00; x00; x00] ++ [x00; x00; x00] ++ skipn 3 C.

(** [str(n)] for an [int]: the decimal digits, with a minus sign. *)
Fixpoint digits (u : Decimal.uint) : str :=
  match u with
  | Decimal.Nil => []
  | Decimal.D0 u => 48 :: digits u
  | Decimal.D1 u => 49 :: digits u
  | Decimal.D2 u => 50 :: digits u
  | Decimal.D3 u => 51 :: digits u
  | Decimal.D4 u => 52 :: digits u
  | Decimal.D5 u => 53 :: digits u
  | Decimal.D6 u => 54 :: digits u
  | Decimal.D7 u => 55 :: digits u
  | Decimal.D8 u => 56 :: digits u
  | Decimal.D9 u => 57 :: digits u
  end.

Definition str_of_int (z : Z) : str :=
  match Z.to_int z with
  | Decimal.Pos u => digits u
  | Decimal.Neg u => 45 :: digits u
  end.

(** An exception raised by the environment, by the name of its class
    ([IsADirectoryError], [PermissionError], [UnicodeEncodeError], ...). *)
Inductive raised : Type :=
| Exn (e : exn)
| EnvError (class : str).

(** How a run of [main] or of [extract_file] ends. *)
Inductive outcome : Type :=
| Done
| Raised (e : raised).

(** What the program asks of its environment.  Each answer is [None] when
    the call succeeds and the exception when it raises; an answer depends
    on the arguments of the call only. *)
Record Env : Type := mkEnv {
  (** [os.path.join], which depends on the platform *)
  path_join : str -> str -> str;
  (** [os.makedirs(dir, exist_ok=True)] *)
  makedirs : str -> option raised;
  (** [open(path, 'rb')] on the archive, in [extract_file] *)
  open_rb_again : str -> option raised;
  (** [open(path, 'wb')], which creates or empties the file *)
  open_wb : str -> option raised;
  (** [print(line)] *)
  print : str -> option raised;
  (** whether two paths name the same file *)
  same_file : str -> str -> bool
}.

(** What a run does to its environment, in order: a line printed, a
    directory created with its parents if absent, a file created or
    emptied and then closed holding [data]. *)
Inductive Event : Type :=
| Printed (line : str)
| MakeDirs (dir : str)
| WriteFile (path : str) (data : bytes).

(** The files a run writes, in order. *)
Fixpoint writes (tr : list Event) : list (str * bytes) :=
  match tr with
  | [] => []
  | WriteFile p d :: tr' => (p, d) :: writes tr'
  | _ :: tr' => writes tr'
  end.

(** The state of a run: what was done so far, what the archive file holds
    now, and how the run stands. *)
Definition Run : Type := list Event * bytes * outcome.

(** Sequencing: the second part runs when the first ended normally. *)
Definition and_then (r : Run) (k : bytes -> Run) : Run :=
  let '(tr, cur, o) := r in
  match o with
  | Done => let '(tr', cur', o') := k cur in (tr ++ tr', cur', o')
  | Raised e => (tr, cur, Raised e)
  end.

(** The parsed arguments: [filename], [--list], [--extract OUTPUT INPUT],
    [--all], [--output]. *)
Record Args : Type := mkArgs {
  a_filename : str;
  a_list : bool;
  a_extract : option (str * str);
  a_all : bool;
  a_output : str
}.

Section Main.

Variable env : Env.

(** [print(line)] *)
Definition emit (line : str) (cur : bytes) : Run :=
  match print env line with
  | None => ([Printed line], cur, Done)
  | Some e => ([], cur, Raised e)
  end.

Definition of_res (r : res unit) : outcome :=
  match r with
  | Raise e => Raised (Exn e)
  | _ => Done
  end.

(** [extract_file] with its effects.  The archive [arc_filename] holds
    [cur].  The destination is opened after the archive; opening it
    empties it, so when it is the archive itself nothing is left to read
    (the bytes written stay in the buffer of the destination until it is
    closed), and the archive holds the bytes written from then on.  When
    [seek] or [read] raises, the destination is closed holding the 4 bytes
    already written and nothing is printed.  Reading, writing and closing
    the open files succeed. *)
Definition extract_file_io (arc_filename : str) (entry : Entry)
           (output_dir output_name : str) (cur : bytes) : Run :=
  match makedirs env output_dir with
  | Some e => ([], cur, Raised e)
  | None =>
      let output_path := path_join env output_dir output_name in
      match open_rb_again env arc_filename with
      | Some e => ([MakeDirs output_dir], cur, Raised e)
      | None =>
          match open_wb env output_path with
          | Some e => ([MakeDirs output_dir], cur, Raised e)
          | None =>
              let alias := same_file env output_path arc_filename in
              let '(out, r) := extract_file (if alias then [] else cur) entry in
              let cur' := if alias then out else cur in
              and_then
                ([MakeDirs output_dir; WriteFile output_path out], cur',
                 of_res r)
                (emit (lit "Extracted and modified " ++ name entry
                       ++ lit " as " ++ output_path))
          end
      end
  end.

(** Lines 124-129: the [for ... else] loop of [--extract]. *)
Fixpoint extract_named (arc_filename : str) (entries : list Entry)
         (output_dir output_name input_name : str) (cur : bytes) : Run :=
  match entries with
  | [] =>
      emit (lit "File " ++ input_name ++ lit " not found in the archive") cur
  | entry :: rest =>
      if str_eqb (name entry) input_name
      then extract_file_io arc_filename entry output_dir output_name cur
      else extract_named arc_filename rest output_dir output_name
                         input_name cur
  end.

(** Lines 132-133: the loop of [--all]. *)
Fixpoint extract_all (arc_filename : str) (entries : list Entry)
         (output_dir : str) (cur : bytes) : Run :=
  match entries with
  | [] => ([], cur, Done)
  | entry :: rest =>
      and_then
        (extract_file_io arc_filename entry output_dir (name entry) cur)
        (extract_all arc_filename rest output_dir)
  end.

(** Lines 118-120: the lines of [--list], printed one by one. *)
Definition listing_lines (arc_filename : str) (entries : list Entry)
  : list str :=
  (lit "Contents of " ++ arc_filename ++ lit ":")
  :: map (fun entry =>
            name entry ++ lit " (" ++ str_of_int (size entry)
            ++ lit " bytes)")
         entries.

Fixpoint emit_all (lines : list str) (cur : bytes) : Run :=
  match lines with
  | [] => ([], cur, Done)
  | line :: rest => and_then (emit line cur) (emit_all rest)
  end.

(** [main], after [parse_args], when [args.filename] opens and holds
    [data].  An exception of [try_open], of [extract_file] or of the
    environment ends the run. *)
Definition main (args : Args) (data : bytes) : Run :=
  match try_open (a_filename args) data with
  | Raise e => ([], data, Raised (Exn e))
  | ReturnNone => emit (lit "Failed to open " ++ a_filename args) data
  | Value arc_file =>
      and_then
        (if a_list args
         then emit_all (listing_lines (a_filename args) (entries arc_file))
                       data
         else ([], data, Done))
        (fun cur =>
           and_then
             (match a_extract args with
              | Some (output_name, input_name) =>
                  extract_named (a_filename args) (entries arc_file)
                                (a_output args) output_name input_name cur
              | None => ([], cur, Done)
              end)
             (fun cur =>
                if a_all args
                then extract_all (a_filename args) (entries arc_file)
                                 (a_output args) cur
                else ([], cur, Done)))
  end.

(** The events of one extraction that succeeds. *)
Definition extraction (arc_data : bytes) (entry : Entry)
           (output_dir output_name : str) : list Event :=
  [MakeDirs output_dir;
   WriteFile (path_join env output_dir output_name)
             (transformed (content_of arc_data entry));
   Printed (lit "Extracted and modified " ++ name entry
            ++ lit " as " ++ path_join env output_dir output_name)].

(** The names under which [main] writes files in the output directory:
    [OUTPUT] when an entry is named [INPUT], and the name of every entry
    for [--all]. *)
Definition destinations (args : Args) (entries : list Entry) : list str :=
  match a_extract args with
  | Some (output_name, input_name) =>
      if existsb (fun entry => str_eqb (name entry) input_name) entries
      then [output_name] else []
  | None => []
  end
  ++ (if a_all args then map name entries else []).

(** The file [output_name] of [output_dir] can be opened for writing and
    is not the archive. *)
Definition dest_ok (arc_filename output_dir output_name : str) : Prop :=
  open_wb env (path_join env output_dir output_name) = None /\
  same_file env (path_join env output_dir output_name) arc_filename = false.

(** The calls of a run that writes the files [names] succeed: the output
    directory can be made, the archive opens again, every line can be
    printed, and each of [names] can be opened for writing in the output
    directory and is not the archive. *)
Definition friendly (arc_filename output_dir : str) (names : list str)
  : Prop :=
  makedirs env output_dir = None /\
  open_rb_again env arc_filename = None /\
  (forall l, print env l = None) /\
  Forall (dest_ok arc_filename output_dir) names.

End Main.

(** [os.path.join] of POSIX, for two components. *)
Definition posix_join (a b : str) : str :=
  if str_eqb (firstn 1 b) [47] then b
  else if is_nil a || endswith a [47] then a ++ b
  else a ++ 47 :: b.

(** A POSIX environment in which every call succeeds and two paths name
    the same file when they are equal. *)
Definition plain_env : Env :=
  mkEnv posix_join (fun _ => None) (fun _ => None) (fun _ => None)
        (fun _ => None) str_eqb.

End Cli.

Import ExCGF Layout.

(* ================================================================== *)
(** * Facts about the runtime fragment *)
(* ================================================================== *)

Module PyFacts.

Lemma byte_val_range (b : byte) : 0 <= byte_val b < 256.
Proof.
  unfold byte_val. pose proof (Byte.to_N_bounded b) as H. lia.
Qed.

Lemma unpack_u32_Value (b : bytes) (v : Z) :
  unpack_u32 b = Value v ->
  length b = 4%nat /\ 0 <= v < 2 ^ 32.
Proof.
  destruct b as [|b0 [|b1 [|b2 [|b3 [|b4 t]]]]]; simpl; try discriminate.
  intros H; injection H as <-.
  pose proof (byte_val_range b0). pose proof (byte_val_range b1).
  pose proof (byte_val_range b2). pose proof (byte_val_range b3).
  split; [reflexivity | lia].
Qed.

Lemma unpack_u32_short (b : bytes) :
  length b <> 4%nat -> unpack_u32 b = Raise struct_error.
Proof.
  destruct b as [|b0 [|b1 [|b2 [|b3 [|b4 t]]]]]; simpl; try reflexivity.
  intros H; now elim H.
Qed.

Lemma unpack_u32_total (b : bytes) :
  length b = 4%nat -> exists v, unpack_u32 b = Value v.
Proof.
  destruct b as [|b0 [|b1 [|b2 [|b3 [|b4 t]]]]]; simpl; try discriminate.
  intros _. eexists; reflexivity.
Qed.

Lemma unpack_u32_not_None (b : bytes) : unpack_u32 b <> ReturnNone.
Proof.
  destruct b as [|b0 [|b1 [|b2 [|b3 [|b4 t]]]]]; simpl; discriminate.
Qed.

(** ** Slices *)

Lemma slice_length {A} (l : list A) (a b : Z) :
  length (slice l a b) = Nat.min (Z.to_nat (b - a)) (length l - Z.to_nat a).
Proof. unfold slice. now rewrite length_firstn, length_skipn. Qed.

Lemma firstn_skipn_firstn {A} (l : list A) (a k n : nat) :
  (a + k <= n)%nat ->
  firstn k (skipn a (firstn n l)) = firstn k (skipn a l).
Proof.
  intros H. rewrite skipn_firstn_comm, firstn_firstn.
  f_equal. lia.
Qed.

(** A slice of the buffered index block is the same slice of the file. *)
Lemma slice_index_block (data : bytes) (n a b : Z) :
  0 <= a -> b <= n ->
  slice (firstn (Z.to_nat n) (skipn (Z.to_nat 4) data)) a b
  = slice data (4 + a) (4 + b).
Proof.
  intros Ha Hb. unfold slice.
  destruct (Z_le_gt_dec a b) as [Hab|Hab].
  - rewrite firstn_skipn_firstn by lia.
    rewrite skipn_skipn. f_equal; [lia|]. f_equal. lia.
  - replace (Z.to_nat (b - a)) with 0%nat by lia.
    replace (Z.to_nat (4 + b - (4 + a))) with 0%nat by lia.
    reflexivity.
Qed.

(** [seek] to a position it accepts. *)
Lemma seek_ok (f : File) (p : Z) :
  0 <= p <= 2 ^ 44 - 4096 ->
  seek f p = Value (mkFile (content f) p).
Proof.
  intros Hp. unfold seek, max_position.
  destruct (Z.ltb_spec p (- 2 ^ 63)); [lia|].
  destruct (Z.leb_spec (2 ^ 63) p); [lia|]. cbn [orb].
  destruct (Z.ltb_spec p 0); [lia|].
  destruct (Z.ltb_spec (2 ^ 44 - 4096) p); [lia | reflexivity].
Qed.

(** [read] with a size it accepts. *)
Lemma read_ok (f : File) (n : Z) :
  -1 <= n <= 2 ^ 32 ->
  read f n =
  Value (let rest := skipn (Z.to_nat (pos f)) (content f) in
         let b := if n =? -1 then rest else firstn (Z.to_nat n) rest in
         (b, mkFile (content f) (pos f + Z.of_nat (length b)))).
Proof.
  intros Hn. unfold read, max_alloc.
  destruct (Z.ltb_spec n (- 2 ^ 63)); [lia|].
  destruct (Z.leb_spec (2 ^ 63) n); [lia|]. cbn [orb].
  destruct (Z.ltb_spec n (-1)); [lia|].
  destruct (Z.ltb_spec (2 ^ 63 - 34) n); [lia|].
  destruct (Z.ltb_spec (2 ^ 32) n); [lia | reflexivity].
Qed.

Lemma read_nonneg (f : File) (n : Z) :
  0 <= n <= 2 ^ 32 ->
  read f n =
  Value (firstn (Z.to_nat n) (skipn (Z.to_nat (pos f)) (content f)),
         mkFile (content f)
           (pos f + Z.of_nat (length (firstn (Z.to_nat n)
                                        (skipn (Z.to_nat (pos f)) (content f)))))).
Proof.
  intros Hn. rewrite read_ok by lia. cbv zeta.
  destruct (Z.eqb_spec n (-1)); [lia | reflexivity].
Qed.

(** ** The loop combinator *)

Lemma for_range_app {S} (n m : nat) (i : Z) (body : Z -> S -> res S) (s : S) :
  for_range (n + m) i body s =
  (s' <- for_range n i body s ;; for_range m (i + Z.of_nat n) body s').
Proof.
  revert i s. induction n as [|n IH]; intros i s.
  - simpl. now rewrite Z.add_0_r.
  - change (Datatypes.S n + m)%nat with (Datatypes.S (n + m)).
    rewrite Nat2Z.inj_succ. cbn [for_range].
    destruct (body i s) as [s1| |e]; cbn [bind]; try reflexivity.
    rewrite IH. replace (i + 1 + Z.of_nat n) with (i + Z.succ (Z.of_nat n)) by lia.
    reflexivity.
Qed.

Lemma bind_Value_inv {A B} (c : res A) (k : A -> res B) (b : B) :
  bind c k = Value b -> exists a, c = Value a /\ k a = Value b.
Proof. destruct c; simpl; try discriminate. eauto. Qed.

Lemma bind_None_inv {A B} (c : res A) (k : A -> res B) :
  bind c k = ReturnNone ->
  c = ReturnNone \/ exists a, c = Value a /\ k a = ReturnNone.
Proof. destruct c; simpl; try discriminate; eauto. Qed.

End PyFacts.

(* ================================================================== *)
(** * The packed offset field *)
(* ================================================================== *)

Module MaskFacts.

Lemma testbit_top2 (n : Z) :
  0 <= n -> Z.testbit 0xC0000000 n = (n =? 30) || (n =? 31).
Proof.
  intros Hn. change 0xC0000000 with (Z.shiftl 3 30).
  rewrite Z.shiftl_spec by lia.
  destruct (Z.eqb_spec n 30) as [->|H30]; [reflexivity|].
  destruct (Z.eqb_spec n 31) as [->|H31]; [reflexivity|].
  destruct (Z_lt_le_dec n 30) as [Hlt|Hge].
  - apply Z.testbit_neg_r. lia.
  - apply Z.bits_above_log2; [lia|]. change (Z.log2 3) with 1. lia.
Qed.

Lemma testbit_mask (x n : Z) :
  0 <= n ->
  Z.testbit (mask x) n = Z.testbit x n && negb ((n =? 30) || (n =? 31)).
Proof.
  intros Hn. unfold mask.
  now rewrite Z.land_spec, Z.lnot_spec, testbit_top2 by lia.
Qed.

Lemma testbit_u32_high (x n : Z) :
  0 <= x < 2 ^ 32 -> 32 <= n -> Z.testbit x n = false.
Proof.
  intros Hx Hn. destruct (Z.eq_dec x 0) as [->|Hx0].
  - apply Z.testbit_0_l.
  - apply Z.bits_above_log2; [lia|].
    assert (Z.log2 x < 32) by (apply Z.log2_lt_pow2; lia). lia.
Qed.

(** On a u32 the mask keeps the low 30 bits. *)
Lemma mask_u32 (x : Z) : 0 <= x < 2 ^ 32 -> mask x = x mod 2 ^ 30.
Proof.
  intros Hx. rewrite <- Z.land_ones by lia.
  apply Z.bits_inj'; intros n Hn.
  rewrite testbit_mask, Z.land_spec by lia.
  destruct (Z_lt_le_dec n 30) as [Hlt|Hge].
  - rewrite Z.ones_spec_low by lia.
    destruct (Z.eqb_spec n 30); [lia|]. destruct (Z.eqb_spec n 31); [lia|].
    reflexivity.
  - rewrite Z.ones_spec_high by lia. rewrite andb_false_r.
    destruct (Z_lt_le_dec n 32) as [Hlt|Hge32].
    + assert (n = 30 \/ n = 31) as [-> | ->] by lia;
        simpl; now rewrite andb_false_r.
    + now rewrite (testbit_u32_high x n) by lia.
Qed.

Lemma mask_small (x : Z) : 0 <= x < 2 ^ 30 -> mask x = x.
Proof.
  intros Hx. rewrite mask_u32 by lia. apply Z.mod_small. lia.
Qed.

(** On any length the mask clears bits 30 and 31 and nothing else. *)
Lemma mask_bounds (x : Z) : 0 <= x -> 0 <= mask x <= x.
Proof.
  intros Hx. split.
  - unfold mask. apply Z.land_nonneg. now left.
  - assert (Hsub : x - Z.land x 0xC0000000 = Z.ldiff x (Z.land x 0xC0000000)).
    { apply Z.sub_nocarry_ldiff. apply Z.bits_inj'; intros n Hn.
      rewrite Z.ldiff_spec, Z.land_spec, Z.bits_0.
      destruct (Z.testbit x n); simpl; [apply andb_false_r | reflexivity]. }
    assert (Hm : mask x = Z.ldiff x (Z.land x 0xC0000000)).
    { apply Z.bits_inj'; intros n Hn.
      rewrite testbit_mask, Z.ldiff_spec, Z.land_spec, testbit_top2 by lia.
      destruct (Z.testbit x n); reflexivity. }
    assert (0 <= Z.land x 0xC0000000) by (apply Z.land_nonneg; now left).
    lia.
Qed.

Lemma shiftr30_u32 (x : Z) :
  0 <= x < 2 ^ 32 -> Z.shiftr x 30 = x / 2 ^ 30 /\ 0 <= Z.shiftr x 30 <= 3.
Proof.
  intros Hx. rewrite Z.shiftr_div_pow2 by lia. split; [reflexivity|].
  split.
  - apply Z.div_pos; lia.
  - assert (x / 2 ^ 30 < 4); [|lia].
    apply Z.div_lt_upper_bound; lia.
Qed.

End MaskFacts.

(* ================================================================== *)
(** * The opener *)
(* ================================================================== *)

Module Opener.

Import PyFacts MaskFacts.

Lemma zseq_length (i : Z) (n : nat) : length (zseq i n) = n.
Proof. revert i; induction n; intros; simpl; auto. Qed.

Lemma zseq_nth (n : nat) : forall (i : Z) (k : nat),
  (k < n)%nat -> nth_error (zseq i n) k = Some (i + Z.of_nat k).
Proof.
  induction n as [|n IH]; intros i k Hk; [lia|].
  destruct k as [|k]; simpl.
  - f_equal; lia.
  - rewrite IH by lia. f_equal; lia.
Qed.

Lemma zseq_In (n : nat) : forall (i j : Z),
  In j (zseq i n) <-> i <= j < i + Z.of_nat n.
Proof.
  induction n as [|n IH]; intros i j; simpl; [lia|].
  rewrite IH. lia.
Qed.

Lemma zseq_snoc (n : nat) : forall (i : Z),
  zseq i (S n) = zseq i n ++ [i + Z.of_nat n].
Proof.
  induction n as [|n IH]; intros i.
  - simpl. now rewrite Z.add_0_r.
  - change (zseq i (S (S n))) with (i :: zseq (i + 1) (S n)).
    rewrite IH. simpl. do 3 f_equal. lia.
Qed.

(** ** The header *)

Lemma try_open_unfold (fn : str) (data : bytes) :
  try_open fn data =
  (count <- u32_at data 0 ;;
   if negb (is_sane_count count) then ReturnNone
   else
     offset1 <- u32_at data 0x14 ;;
     offset2 <- u32_at data 0x20 ;;
     match select_layout count offset1 offset2 with
     | None => ReturnNone
     | Some (entry_size, next_offset) =>
         st <- run_loop data count entry_size next_offset (Z.to_nat count) ;;
         Value (mkArcFile fn (st_dir st))
     end).
Proof.
  unfold try_open, u32_at, slice, open_rb.
  rewrite (read_nonneg _ 4) by lia. cbn [bind pos content].
  change (Z.to_nat (0 + 4 - 0)) with (Z.to_nat 4).
  destruct (unpack_u32 _) as [count| |e]; cbn [bind]; try reflexivity.
  destruct (is_sane_count count) eqn:Hsane; cbn [negb]; [|reflexivity].
  rewrite seek_ok by lia. cbn [bind content].
  rewrite (read_nonneg _ 4) by lia. cbn [bind pos content].
  change (Z.to_nat (0x14 + 4 - 0x14)) with (Z.to_nat 4).
  destruct (unpack_u32 _) as [o1| |e]; cbn [bind]; try reflexivity.
  rewrite seek_ok by lia. cbn [bind content].
  rewrite (read_nonneg _ 4) by lia. cbn [bind pos content].
  change (Z.to_nat (0x20 + 4 - 0x20)) with (Z.to_nat 4).
  destruct (unpack_u32 _) as [o2| |e]; cbn [bind]; try reflexivity.
  destruct (select_layout count o1 o2) as [[es first]|] eqn:Hs;
    [|reflexivity].
  assert (Hes : es = 0x14 \/ es = 0x20).
  { unfold select_layout in Hs.
    destruct (_ =? _) in Hs; [injection Hs as <- _; now left|].
    destruct (_ =? _) in Hs; [injection Hs as <- _; now right|discriminate]. }
  assert (Hc : 0 < count < 100000).
  { unfold is_sane_count in Hsane. apply andb_true_iff in Hsane.
    rewrite !Z.ltb_lt in Hsane. exact Hsane. }
  rewrite seek_ok by lia. cbn [bind content].
  rewrite read_nonneg by (cbn [content pos]; nia).
  cbn [bind pos content]. reflexivity.
Qed.

Lemma select_layout_Some (count o1 o2 es first : Z) :
  select_layout count o1 o2 = Some (es, first) ->
  (es = 0x14 /\ first = o1 \/ es = 0x20 /\ first = o2) /\
  mask first = 4 + count * es.
Proof.
  unfold select_layout.
  destruct (Z.eqb_spec (4 + count * 0x14) (mask o1)) as [E1|N1].
  - intros H; injection H as <- <-. split; [now left | lia].
  - destruct (Z.eqb_spec (4 + count * 0x20) (mask o2)) as [E2|N2];
      [|discriminate].
    intros H; injection H as <- <-. split; [now right | lia].
Qed.

(** The selected probe value is the trailing field of record 0. *)
Lemma header_first (data : bytes) (count es o1 o2 first : Z) :
  u32_at data 0x14 = Value o1 -> u32_at data 0x20 = Value o2 ->
  select_layout count o1 o2 = Some (es, first) ->
  trailing_field data es 0 = Value first.
Proof.
  intros H1 H2 Hs. apply select_layout_Some in Hs.
  destruct Hs as [[[-> ->] | [-> ->]] _]; assumption.
Qed.

(** ** One iteration of the loop *)

Section Loop.

Variables (data : bytes) (count entry_size : Z).
Hypothesis Hes : 4 <= entry_size.

Local Abbreviation index_data := (index_block data entry_size count).
Local Abbreviation body := (loop_body count entry_size index_data).

Lemma name_slice (i : Z) :
  0 <= i < count ->
  slice index_data (i * entry_size) (i * entry_size + entry_size - 4)
  = name_bytes data entry_size i.
Proof.
  intros Hi. unfold index_block, name_bytes.
  rewrite slice_index_block by nia. f_equal. lia.
Qed.

Lemma field_slice (i : Z) :
  0 <= i -> i + 1 < count ->
  unpack_u32 (slice index_data ((i + 1) * entry_size + entry_size - 4)
                    ((i + 2) * entry_size))
  = trailing_field data entry_size (i + 1).
Proof.
  intros Hi Hc. unfold index_block, trailing_field, u32_at.
  rewrite slice_index_block by nia. do 2 f_equal; lia.
Qed.

(** The iteration, read on the file instead of the buffered index. *)
Lemma loop_body_eq (i : Z) (st : LoopState) :
  0 <= i < count ->
  body i st =
  (nm <- decode (name_bytes data entry_size i) ;;
   if negb (is_valid_entry_name (rstrip 0 nm)) then ReturnNone
   else
     fn <- (if i + 1 =? count
            then Value (seek_end (st_file st), tell (seek_end (st_file st)))
            else v <- trailing_field data entry_size (i + 1) ;;
                 Value (st_file st, v)) ;;
     Value (mkLoopState (fst fn) (snd fn)
              (st_dir st ++
               [make_entry (rstrip 0 nm) (mask (st_next_offset st))
                  (mask (snd fn) - mask (st_next_offset st))
                  (Z.shiftr (st_next_offset st) 30)]))).
Proof.
  intros Hi. unfold loop_body. rewrite name_slice by lia.
  destruct (Z.eqb_spec (i + 1) count) as [E|N]; [reflexivity|].
  rewrite field_slice by lia. reflexivity.
Qed.

Lemma body_Value (i : Z) (st st' : LoopState) :
  0 <= i < count ->
  content (st_file st) = data ->
  body i st = Value st' ->
  name_ok data entry_size i /\
  (i + 1 < count -> field_ok data entry_size (i + 1)) /\
  content (st_file st') = data /\
  st_next_offset st' = nxt data count entry_size i /\
  st_dir st' =
    st_dir st ++
    [make_entry (name_at data entry_size i) (mask (st_next_offset st))
       (mask (nxt data count entry_size i) - mask (st_next_offset st))
       (Z.shiftr (st_next_offset st) 30)].
Proof.
  intros Hi Hc. rewrite loop_body_eq by lia.
  unfold name_ok, field_ok, name_at, nxt, cur.
  destruct (decode (name_bytes data entry_size i)) as [nm| |e];
    cbn [bind val_or]; try discriminate.
  destruct (is_valid_entry_name (rstrip 0 nm)) eqn:Hv;
    cbn [negb]; try discriminate.
  destruct (Z.eqb_spec (i + 1) count) as [E|N]; cbn [bind fst snd].
  - intros H; injection H as <-. cbn [st_file st_next_offset st_dir].
    unfold seek_end, tell, file_len; cbn [content pos]. rewrite Hc.
    repeat split; eauto. lia.
  - destruct (trailing_field data entry_size (i + 1)) as [v| |e];
      cbn [bind val_or fst snd]; try discriminate.
    intros H; injection H as <-. cbn [st_file st_next_offset st_dir].
    repeat split; eauto.
Qed.

Lemma body_None (i : Z) (st : LoopState) :
  0 <= i < count ->
  body i st = ReturnNone ->
  exists nm, decode (name_bytes data entry_size i) = Value nm /\
             is_valid_entry_name (rstrip 0 nm) = false.
Proof.
  intros Hi. rewrite loop_body_eq by lia.
  destruct (decode (name_bytes data entry_size i)) as [nm| |e] eqn:Hd;
    cbn [bind]; try discriminate.
  - destruct (is_valid_entry_name (rstrip 0 nm)) eqn:Hv; cbn [negb]; eauto.
    destruct (Z.eqb_spec (i + 1) count) as [E|N]; cbn [bind]; try discriminate.
    destruct (trailing_field data entry_size (i + 1)) as [v| |e] eqn:Hf;
      cbn [bind]; try discriminate.
    exfalso. eapply unpack_u32_not_None. exact Hf.
  - unfold decode in Hd. destruct (decode_utf8 _); discriminate.
Qed.

Lemma body_invalid (i : Z) (st : LoopState) (nm : str) :
  0 <= i < count ->
  decode (name_bytes data entry_size i) = Value nm ->
  is_valid_entry_name (rstrip 0 nm) = false ->
  body i st = ReturnNone.
Proof.
  intros Hi Hd Hv. rewrite loop_body_eq by lia.
  rewrite Hd; cbn [bind]. now rewrite Hv.
Qed.

Lemma body_undecodable (i : Z) (st : LoopState) :
  0 <= i < count ->
  decode_utf8 (name_bytes data entry_size i) = None ->
  body i st = Raise UnicodeDecodeError.
Proof.
  intros Hi Hd. rewrite loop_body_eq by lia.
  unfold decode. now rewrite Hd.
Qed.

Lemma body_progress (i : Z) (st : LoopState) :
  0 <= i < count ->
  name_ok data entry_size i ->
  (i + 1 < count -> field_ok data entry_size (i + 1)) ->
  exists st', body i st = Value st'.
Proof.
  intros Hi (nm & Hd & Hv) Hf. rewrite loop_body_eq by lia.
  rewrite Hd; cbn [bind]. rewrite Hv; cbn [negb].
  destruct (Z.eqb_spec (i + 1) count) as [E|N]; cbn [bind]; [eauto|].
  destruct Hf as [v Hf]; [lia|]. rewrite Hf; cbn [bind]. eauto.
Qed.

End Loop.

(** ** The whole loop *)

Section Run.

Variables (data : bytes) (count entry_size : Z).
Hypothesis Hes : 4 <= entry_size.

Local Abbreviation body :=
  (loop_body count entry_size (index_block data entry_size count)).

Lemma nxt_cur (i : Z) :
  i + 1 <> count ->
  nxt data count entry_size i = cur data entry_size (i + 1).
Proof.
  intros H. unfold nxt. now destruct (Z.eqb_spec (i + 1) count).
Qed.

Lemma nxt_last (i : Z) :
  i + 1 = count -> nxt data count entry_size i = file_len data.
Proof.
  intros H. unfold nxt. now destruct (Z.eqb_spec (i + 1) count).
Qed.

Lemma run_Value (n : nat) : forall (i : Z) (st st' : LoopState),
  0 <= i -> i + Z.of_nat n <= count ->
  content (st_file st) = data ->
  (n <> 0%nat -> st_next_offset st = cur data entry_size i) ->
  for_range n i body st = Value st' ->
  st_dir st' = st_dir st ++ map (entry_at data count entry_size) (zseq i n) /\
  (forall j, i <= j < i + Z.of_nat n -> name_ok data entry_size j) /\
  (forall j, i < j < i + Z.of_nat n -> field_ok data entry_size j) /\
  content (st_file st') = data.
Proof.
  induction n as [|n IH]; intros i st st' Hi Hn Hc Hno Hrun.
  - simpl in Hrun. injection Hrun as <-. simpl. rewrite app_nil_r.
    repeat split; auto; intros; lia.
  - cbn [for_range] in Hrun.
    apply bind_Value_inv in Hrun as (s1 & Hb & Hrest).
    apply body_Value in Hb as (Hname & Hfield & Hc1 & Hno1 & Hd1);
      [|lia|lia|assumption].
    apply IH in Hrest as (Hd & Hnames & Hfields & Hc');
      [|lia|lia|assumption|].
    + rewrite Hd, Hd1, <- app_assoc. rewrite Hno by discriminate.
      repeat split; auto.
      * intros j Hj. destruct (Z.eq_dec j i) as [->|Hne]; [assumption|].
        apply Hnames. lia.
      * intros j Hj. destruct (Z.eq_dec j (i + 1)) as [->|Hne].
        -- apply Hfield. lia.
        -- apply Hfields. lia.
    + intros Hn0. rewrite Hno1. apply nxt_cur. lia.
Qed.

Lemma run_progress (n : nat) : forall (i : Z) (st : LoopState),
  0 <= i -> i + Z.of_nat n <= count ->
  (forall j, i <= j < i + Z.of_nat n -> name_ok data entry_size j) ->
  (forall j, i < j < count -> field_ok data entry_size j) ->
  exists st', for_range n i body st = Value st'.
Proof.
  induction n as [|n IH]; intros i st Hi Hn Hnames Hfields.
  - simpl. eauto.
  - cbn [for_range].
    destruct (body_progress data count entry_size Hes i st) as [s1 Hs1];
      [lia | apply Hnames; lia | intros; apply Hfields; lia |].
    rewrite Hs1; cbn [bind]. apply IH; [lia | lia | | ].
    + intros j Hj. apply Hnames. lia.
    + intros j Hj. apply Hfields. lia.
Qed.

(** The loop stops at the first iteration that does not fall through. *)
Lemma run_stops (r : res LoopState) (j : Z) (n : nat) :
  forall (i : Z) (st : LoopState),
  0 <= i -> i <= j < i + Z.of_nat n -> i + Z.of_nat n <= count ->
  (forall l, i <= l < j -> name_ok data entry_size l) ->
  (forall l, i < l <= j -> field_ok data entry_size l) ->
  (forall s, body j s = r) ->
  (forall s, r <> Value s) ->
  for_range n i body st = r.
Proof.
  intros i st Hi Hj Hn Hnames Hfields Hr Hnv. revert i st Hi Hj Hn Hnames Hfields.
  induction n as [|n IH]; intros i st Hi Hj Hn Hnames Hfields; [lia|].
  cbn [for_range]. destruct (Z.eq_dec i j) as [->|Hne].
  - rewrite Hr. destruct r; cbn [bind]; try reflexivity. now elim (Hnv a).
  - destruct (body_progress data count entry_size Hes i st) as [s1 Hs1];
      [lia | apply Hnames; lia | intros; apply Hfields; lia |].
    rewrite Hs1; cbn [bind]. apply IH; try lia.
    + intros l Hl. apply Hnames. lia.
    + intros l Hl. apply Hfields. lia.
Qed.

Lemma run_None (n : nat) : forall (i : Z) (st : LoopState),
  0 <= i -> i + Z.of_nat n <= count ->
  for_range n i body st = ReturnNone ->
  exists j nm, i <= j < i + Z.of_nat n /\
               decode (name_bytes data entry_size j) = Value nm /\
               is_valid_entry_name (rstrip 0 nm) = false.
Proof.
  induction n as [|n IH]; intros i st Hi Hn Hrun; [discriminate|].
  cbn [for_range] in Hrun.
  apply bind_None_inv in Hrun as [Hb | (s1 & Hb & Hrest)].
  - apply body_None in Hb as (nm & Hd & Hv); [|assumption|lia].
    exists i, nm. repeat split; auto; lia.
  - apply IH in Hrest as (j & nm & Hj & Hd & Hv); [|lia|lia].
    exists j, nm. repeat split; auto; lia.
Qed.

End Run.

(** ** Accepted archives *)

Lemma sane_count_range (count : Z) :
  is_sane_count count = true <-> 0 < count < 100000.
Proof. unfold is_sane_count. rewrite andb_true_iff, !Z.ltb_lt. tauto. Qed.

Lemma header_entry_size (data : bytes) (count es : Z) :
  header data count es -> es = 0x14 \/ es = 0x20.
Proof.
  intros (_ & _ & o1 & o2 & first & _ & _ & Hs).
  apply select_layout_Some in Hs. tauto.
Qed.

Lemma header_field0 (data : bytes) (count es : Z) :
  header data count es ->
  field_ok data es 0 /\ mask (cur data es 0) = 4 + count * es.
Proof.
  intros (_ & _ & o1 & o2 & first & H1 & H2 & Hs).
  pose proof (header_first _ _ _ _ _ _ H1 H2 Hs) as Hf.
  apply select_layout_Some in Hs as [_ Hm].
  split; [now exists first|]. unfold cur. now rewrite Hf.
Qed.

Lemma header_unique (data : bytes) (c1 e1 c2 e2 : Z) :
  header data c1 e1 -> header data c2 e2 -> c1 = c2 /\ e1 = e2.
Proof.
  intros (Hc1 & _ & o1 & o2 & f1 & Ho1 & Ho2 & Hs1)
         (Hc2 & _ & p1 & p2 & f2 & Hp1 & Hp2 & Hs2).
  assert (c1 = c2) by congruence. subst c2.
  assert (o1 = p1) by congruence. assert (o2 = p2) by congruence. subst.
  split; congruence.
Qed.

(** [try_open] returns a directory exactly when the header passes, every
    record is complete and every name is valid; the directory is then the
    list of the entries built from the records, in index order. *)
Lemma try_open_Value_iff (fn : str) (data : bytes) (arc : ArcFile) :
  try_open fn data = Value arc <->
  exists count es,
    header data count es /\
    (forall i, 0 <= i < count -> name_ok data es i) /\
    (forall i, 0 <= i < count -> field_ok data es i) /\
    arc = mkArcFile fn (directory data count es).
Proof.
  rewrite try_open_unfold. split.
  - intros H.
    apply bind_Value_inv in H as (count & Hcount & H).
    destruct (is_sane_count count) eqn:Hsane; cbn [negb] in H; [|discriminate].
    apply bind_Value_inv in H as (o1 & Ho1 & H).
    apply bind_Value_inv in H as (o2 & Ho2 & H).
    destruct (select_layout count o1 o2) as [[es first]|] eqn:Hs; [|discriminate].
    apply bind_Value_inv in H as (st & Hrun & H). injection H as <-.
    assert (Hh : header data count es).
    { split; [assumption|]. split; [assumption|]. now exists o1, o2, first. }
    pose proof (header_first _ _ _ _ _ _ Ho1 Ho2 Hs) as Hf.
    apply sane_count_range in Hsane.
    assert (Hes : 4 <= es) by (destruct (header_entry_size _ _ _ Hh); lia).
    unfold run_loop in Hrun.
    apply (run_Value data count es Hes) in Hrun
      as (Hd & Hnames & Hfields & _); try (cbn; lia || reflexivity).
    + exists count, es. split; [assumption|]. split; [|split].
      * intros i Hi. apply Hnames. lia.
      * intros i Hi. destruct (Z.eq_dec i 0) as [->|Hne].
        -- now exists first.
        -- apply Hfields. lia.
      * now rewrite Hd.
    + intros _. cbn. unfold cur. now rewrite Hf.
  - intros (count & es & Hh & Hnames & Hfields & ->).
    pose proof (header_entry_size _ _ _ Hh) as Hes.
    destruct Hh as (Hcount & Hsane & o1 & o2 & first & Ho1 & Ho2 & Hs).
    pose proof (header_first _ _ _ _ _ _ Ho1 Ho2 Hs) as Hf.
    rewrite Hcount; cbn [bind]. rewrite Hsane; cbn [negb].
    rewrite Ho1, Ho2; cbn [bind]. rewrite Hs.
    apply sane_count_range in Hsane.
    assert (Hes4 : 4 <= es) by lia.
    unfold run_loop.
    edestruct (run_progress data count es Hes4 (Z.to_nat count) 0) as [st Hst];
      [lia | lia | | | rewrite Hst].
    + intros j Hj. apply Hnames. lia.
    + intros j Hj. apply Hfields. lia.
    + cbn [bind]. apply (run_Value data count es Hes4) in Hst
        as (Hd & _); try (cbn; lia || reflexivity).
      * now rewrite Hd.
      * intros _. cbn. unfold cur. now rewrite Hf.
Qed.

(** ** The directory of an accepted archive *)

Lemma make_entry_attrs (nm : str) (off sz fl : Z) :
  name (make_entry nm off sz fl) = nm /\
  type (make_entry nm off sz fl) = lit "image" /\
  offset (make_entry nm off sz fl) = off /\
  size (make_entry nm off sz fl) = sz /\
  (forall f, flags (make_entry nm off sz fl) = Some f -> f = fl).
Proof.
  unfold make_entry.
  destruct ((fl =? 1) || endswith (lower nm) (lit ".iaf")); simpl;
    repeat split; auto; congruence.
Qed.

Lemma directory_length (data : bytes) (count es : Z) :
  length (directory data count es) = Z.to_nat count.
Proof. unfold directory. now rewrite length_map, zseq_length. Qed.

Lemma directory_nth (data : bytes) (count es i : Z) :
  0 <= i < count ->
  nth_error (directory data count es) (Z.to_nat i)
  = Some (entry_at data count es i).
Proof.
  intros Hi. unfold directory.
  rewrite nth_error_map, zseq_nth by lia. simpl. f_equal. f_equal. lia.
Qed.

Lemma entry_at_offset (data : bytes) (count es i : Z) :
  offset (entry_at data count es i) = mask (cur data es i).
Proof. unfold entry_at. apply make_entry_attrs. Qed.

Lemma entry_at_size (data : bytes) (count es i : Z) :
  size (entry_at data count es i)
  = mask (nxt data count es i) - mask (cur data es i).
Proof. unfold entry_at. apply make_entry_attrs. Qed.

Lemma entry_at_end (data : bytes) (count es i : Z) :
  offset (entry_at data count es i) + size (entry_at data count es i)
  = mask (nxt data count es i).
Proof. rewrite entry_at_offset, entry_at_size. lia. Qed.

(** The sizes telescope. *)
Lemma sum_sizes_run (data : bytes) (count es : Z) (n : nat) : forall i : Z,
  i + Z.of_nat n <= count -> n <> 0%nat ->
  sum_sizes (map (entry_at data count es) (zseq i n))
  = mask (nxt data count es (i + Z.of_nat n - 1)) - mask (cur data es i).
Proof.
  induction n as [|n IH]; intros i Hn Hn0; [congruence|].
  cbn [zseq map sum_sizes fold_right]. fold (sum_sizes (map (entry_at data count es) (zseq (i + 1) n))).
  rewrite entry_at_size. destruct n as [|n].
  - simpl. replace (i + 1 - 1) with i by lia. lia.
  - rewrite IH by lia. rewrite (nxt_cur data count es i) by lia.
    replace (i + 1 + Z.of_nat (S n) - 1) with (i + Z.of_nat (S (S n)) - 1) by lia.
    lia.
Qed.

Lemma chained_run (data : bytes) (count es : Z) (n : nat) : forall i : Z,
  i + Z.of_nat n <= count ->
  chained (map (entry_at data count es) (zseq i n)).
Proof.
  induction n as [|n IH]; intros i Hn; [exact I|].
  destruct n as [|n]; [exact I|].
  change (zseq i (S (S n))) with (i :: zseq (i + 1) (S n)).
  cbn [map]. change (zseq (i + 1) (S n)) with (i + 1 :: zseq (i + 1 + 1) n).
  cbn [map chained]. split.
  - rewrite entry_at_end, entry_at_offset. f_equal. apply nxt_cur. lia.
  - apply (IH (i + 1)). lia.
Qed.

Lemma end_of_run (data : bytes) (count es start : Z) (n : nat) (i : Z) :
  n <> 0%nat ->
  end_of start (map (entry_at data count es) (zseq i n))
  = mask (nxt data count es (i + Z.of_nat n - 1)).
Proof.
  intros Hn. destruct n as [|n]; [congruence|].
  rewrite zseq_snoc, map_app. unfold end_of. rewrite rev_app_distr. cbn [map rev app].
  rewrite entry_at_end. f_equal. f_equal. lia.
Qed.

End Opener.

Import PyFacts MaskFacts Opener.

(* ================================================================== *)
(** * Properties of the opener *)
(* ================================================================== *)

Lemma try_open_directory (fn : str) (data : bytes) (arc : ArcFile) :
  try_open fn data = Value arc ->
  exists count es,
    header data count es /\ 0 < count < 100000 /\
    (es = 0x14 \/ es = 0x20) /\
    (forall i, 0 <= i < count -> name_ok data es i /\ field_ok data es i) /\
    entries arc = directory data count es.
Proof.
  intros H. apply try_open_Value_iff in H
    as (count & es & Hh & Hnames & Hfields & ->).
  exists count, es. split; [assumption|].
  split; [apply sane_count_range, Hh|].
  split; [eapply header_entry_size; eassumption|].
  split; [|reflexivity]. intros i Hi. split; auto.
Qed.

Lemma u32_at_short (data : bytes) (p : Z) :
  0 <= p -> file_len data < p + 4 -> u32_at data p = Raise struct_error.
Proof.
  intros Hp Hlen. unfold u32_at. apply unpack_u32_short.
  rewrite slice_length. unfold file_len in Hlen. lia.
Qed.

Lemma u32_at_long (data : bytes) (p : Z) :
  0 <= p -> p + 4 <= file_len data -> exists v, u32_at data p = Value v.
Proof.
  intros Hp Hlen. unfold u32_at. apply unpack_u32_total.
  rewrite slice_length. unfold file_len in Hlen. lia.
Qed.

(** C2.  Offset carry-over and size derivation.  In an accepted archive,
    entry [i] is built from the trailing field of record [i] itself: its
    offset is that field with the top two bits cleared (its low 30 bits),
    the flags are its top two bits, and for record 0 the field is the probe
    value selected by the layout test.  The value that follows is the
    trailing field of record [i + 1], or the file length after the last
    record, and the size is [mask next - mask field]. *)
Theorem offsets_and_sizes (fn : str) (data : bytes) (arc : ArcFile) :
  try_open fn data = Value arc ->
  exists count es offset1 offset2,
    u32_at data 0 = Value count /\
    u32_at data 0x14 = Value offset1 /\
    u32_at data 0x20 = Value offset2 /\
    select_layout count offset1 offset2 = Some (es, cur data es 0) /\
    length (entries arc) = Z.to_nat count /\
    forall i, 0 <= i < count ->
      exists e field next,
        nth_error (entries arc) (Z.to_nat i) = Some e /\
        trailing_field data es i = Value field /\
        (i + 1 < count /\ trailing_field data es (i + 1) = Value next \/
         i + 1 = count /\ next = file_len data) /\
        e = make_entry (name_at data es i) (mask field)
                       (mask next - mask field) (Z.shiftr field 30) /\
        offset e = mask field /\
        mask field = field mod 2 ^ 30 /\
        Z.shiftr field 30 = field / 2 ^ 30 /\
        0 <= field / 2 ^ 30 <= 3 /\
        (forall f, flags e = Some f -> f = field / 2 ^ 30) /\
        size e = mask next - mask field.
Proof.
  intros H. apply try_open_directory in H
    as (count & es & Hh & Hcount & Hes & Hrec & Hd).
  pose proof Hh as (Hc & _ & o1 & o2 & first & Ho1 & Ho2 & Hs).
  exists count, es, o1, o2.
  pose proof (header_first _ _ _ _ _ _ Ho1 Ho2 Hs) as Hf0.
  repeat (split; [first [assumption | idtac]|]).
  - unfold cur. now rewrite Hf0.
  - rewrite Hd. apply directory_length.
  - intros i Hi. destruct (Hrec i Hi) as [_ [field Hfield]].
    assert (Hcur : cur data es i = field) by (unfold cur; now rewrite Hfield).
    apply unpack_u32_Value in Hfield as Hrange. destruct Hrange as [_ Hrange].
    destruct (shiftr30_u32 field Hrange) as [Hsh Hfl].
    exists (entry_at data count es i), field, (nxt data count es i).
    split; [rewrite Hd; now apply directory_nth|].
    split; [assumption|].
    split.
    { destruct (Z.eq_dec (i + 1) count) as [E|N].
      - right. split; [assumption|]. now apply nxt_last.
      - left. split; [lia|]. rewrite nxt_cur by assumption.
        destruct (Hrec (i + 1)) as [_ [v Hv]]; [lia|].
        unfold cur. now rewrite Hv. }
    unfold entry_at. rewrite Hcur.
    split; [reflexivity|].
    split; [apply make_entry_attrs|].
    split; [now apply mask_u32|].
    split; [assumption|].
    split; [lia|].
    split; [|apply make_entry_attrs].
    intros f Hfl'. apply make_entry_attrs in Hfl'. lia.
Qed.

(** C3 (amended).  Layout detection and tie-break.  A file with a sane
    count and fewer than 0x24 bytes makes [try_open] raise [struct.error]
    before any layout is tested.  With a sane count and at least 0x24
    bytes, both probe values are read; the 0x14 layout is selected exactly
    when [4 + count * 0x14] is the probe at 0x14 with its top two bits
    masked off; otherwise the 0x20 layout exactly when [4 + count * 0x20]
    is the masked probe at 0x20; otherwise [try_open] returns [None].  When
    both equations hold the 0x14 layout wins.  The selected record size is
    the one the loop runs with. *)
Theorem layout_detection (fn : str) (data : bytes) (count : Z) :
  u32_at data 0 = Value count ->
  is_sane_count count = true ->
  (file_len data < 0x24 -> try_open fn data = Raise struct_error) /\
  (0x24 <= file_len data ->
   exists offset1 offset2,
     u32_at data 0x14 = Value offset1 /\
     u32_at data 0x20 = Value offset2 /\
     mask offset1 = offset1 mod 2 ^ 30 /\
     mask offset2 = offset2 mod 2 ^ 30 /\
     (select_layout count offset1 offset2 = Some (0x14, offset1)
      <-> 4 + count * 0x14 = mask offset1) /\
     (select_layout count offset1 offset2 = Some (0x20, offset2)
      <-> 4 + count * 0x14 <> mask offset1 /\
          4 + count * 0x20 = mask offset2) /\
     (select_layout count offset1 offset2 = None
      <-> 4 + count * 0x14 <> mask offset1 /\
          4 + count * 0x20 <> mask offset2) /\
     (4 + count * 0x14 = mask offset1 -> 4 + count * 0x20 = mask offset2 ->
      select_layout count offset1 offset2 = Some (0x14, offset1)) /\
     (select_layout count offset1 offset2 = None ->
      try_open fn data = ReturnNone) /\
     (forall es first,
        select_layout count offset1 offset2 = Some (es, first) ->
        try_open fn data =
        (st <- run_loop data count es first (Z.to_nat count) ;;
         Value (mkArcFile fn (st_dir st))))).
Proof.
  intros Hc Hsane. split.
  { intros Hlen. rewrite try_open_unfold, Hc; cbn [bind].
    rewrite Hsane; cbn [negb].
    destruct (Z_lt_le_dec (file_len data) (0x14 + 4)) as [Hs|Hl].
    - now rewrite (u32_at_short data 0x14) by lia.
    - destruct (u32_at_long data 0x14 ltac:(lia) Hl) as [v ->]; cbn [bind].
      now rewrite (u32_at_short data 0x20) by lia. }
  intros Hlen.
  destruct (u32_at_long data 0x14) as [offset1 H1]; [lia | lia |].
  destruct (u32_at_long data 0x20) as [offset2 H2]; [lia | lia |].
  exists offset1, offset2.
  split; [exact H1|]. split; [exact H2|].
  split; [apply mask_u32; eapply unpack_u32_Value; exact H1|].
  split; [apply mask_u32; eapply unpack_u32_Value; exact H2|].
  assert (Hopen : try_open fn data =
                  match select_layout count offset1 offset2 with
                  | None => ReturnNone
                  | Some (es, first) =>
                      st <- run_loop data count es first (Z.to_nat count) ;;
                      Value (mkArcFile fn (st_dir st))
                  end).
  { rewrite try_open_unfold, Hc; cbn [bind]. rewrite Hsane; cbn [negb].
    now rewrite H1, H2. }
  unfold select_layout in *.
  destruct (Z.eqb_spec (4 + count * 0x14) (mask offset1)) as [E1|N1];
    [|destruct (Z.eqb_spec (4 + count * 0x20) (mask offset2)) as [E2|N2]].
  - repeat split; try congruence; try tauto.
    all: intros es first H; injection H as <- <-; exact Hopen.
  - repeat split; try congruence; try tauto.
    all: intros es first H; injection H as <- <-; exact Hopen.
  - repeat split; try congruence; try tauto.
Qed.

(** C4 (amended).  Rejection conditions.  Once the count is read,
    [try_open] returns [None] when the count is 0 or at least 100000; when
    the count is sane, the file has at least 0x24 bytes, so that both
    probes are read, and neither layout equation holds; and when a layout
    is selected, the file holds the records up to record [i], the names
    before record [i] are valid, and the decoded, null-stripped name of
    record [i] is empty or holds one of the nine forbidden characters.  A
    returned directory is never partial: it is returned only when the count
    is sane, a layout is selected and every one of the [count] names is
    valid. *)
Theorem rejection_conditions (fn : str) (data : bytes) (count : Z) :
  u32_at data 0 = Value count ->
  (count = 0 \/ 100000 <= count -> try_open fn data = ReturnNone) /\
  (is_sane_count count = true ->
   0x24 <= file_len data ->
   exists offset1 offset2,
     u32_at data 0x14 = Value offset1 /\
     u32_at data 0x20 = Value offset2 /\
     (4 + count * 0x14 <> mask offset1 ->
      4 + count * 0x20 <> mask offset2 ->
      try_open fn data = ReturnNone)) /\
  (forall es i nm,
     header data count es ->
     0 <= i < count ->
     4 + (i + 1) * es <= file_len data ->
     (forall j, 0 <= j < i -> name_ok data es j) ->
     decode (name_bytes data es i) = Value nm ->
     is_valid_entry_name (rstrip 0 nm) = false ->
     try_open fn data = ReturnNone) /\
  (forall nm,
     is_valid_entry_name nm = false <->
     nm = [] \/ exists c, In c forbidden /\ In c nm) /\
  (forall arc,
     try_open fn data = Value arc ->
     0 < count < 100000 /\
     exists es,
       header data count es /\
       length (entries arc) = Z.to_nat count /\
       forall i, 0 <= i < count ->
         exists nm, decode (name_bytes data es i) = Value nm /\
                    rstrip 0 nm <> [] /\
                    forall c, In c forbidden -> ~ In c (rstrip 0 nm)).
Proof.
  intros Hc.
  assert (Hvalid : forall nm,
     is_valid_entry_name nm = false <->
     nm = [] \/ exists c, In c forbidden /\ In c nm).
  { intros nm. unfold is_valid_entry_name.
    rewrite andb_false_iff, !negb_false_iff, existsb_exists.
    split.
    - intros [Hn | (c & Hin & Hcn)].
      + left. now destruct nm.
      + right. exists c. split; [assumption|].
        unfold contains in Hcn. apply existsb_exists in Hcn as (x & Hx & Heq).
        apply Z.eqb_eq in Heq. now subst.
    - intros [-> | (c & Hin & Hcn)]; [now left|].
      right. exists c. split; [assumption|].
      unfold contains. apply existsb_exists. exists c.
      split; [assumption | apply Z.eqb_refl]. }
  split; [|split; [|split; [|split]]].
  - intros Hbad. rewrite try_open_unfold, Hc; cbn [bind].
    replace (is_sane_count count) with false; [reflexivity|].
    symmetry. apply not_true_is_false. rewrite sane_count_range. lia.
  - intros Hsane Hlen.
    destruct (u32_at_long data 0x14) as [o1 H1]; [lia | lia |].
    destruct (u32_at_long data 0x20) as [o2 H2]; [lia | lia |].
    exists o1, o2. split; [exact H1|]. split; [exact H2|].
    intros N1 N2.
    rewrite try_open_unfold, Hc; cbn [bind]. rewrite Hsane; cbn [negb].
    rewrite H1, H2; cbn [bind]. unfold select_layout.
    destruct (Z.eqb_spec (4 + count * 0x14) (mask o1)); [contradiction|].
    destruct (Z.eqb_spec (4 + count * 0x20) (mask o2)); [contradiction|].
    reflexivity.
  - intros es i nm Hh Hi Hfit Hnames Hd Hv.
    pose proof (header_entry_size _ _ _ Hh) as Hes.
    destruct Hh as (_ & Hsane & o1 & o2 & first & Ho1 & Ho2 & Hs).
    rewrite try_open_unfold, Hc; cbn [bind]. rewrite Hsane; cbn [negb].
    rewrite Ho1, Ho2; cbn [bind]. rewrite Hs.
    apply sane_count_range in Hsane.
    unfold run_loop.
    rewrite (run_stops data count es ltac:(lia) ReturnNone i); try reflexivity;
      try lia; try assumption; try discriminate.
    + intros l Hl. unfold field_ok, trailing_field.
      apply u32_at_long; nia.
    + intros s. eapply body_invalid; try eassumption; lia.
  - exact Hvalid.
  - intros arc Harc. apply try_open_directory in Harc
      as (count' & es & Hh & Hcount & Hes & Hrec & Hd).
    assert (count' = count) as -> by (destruct Hh as [Hc' _]; congruence).
    split; [assumption|]. exists es. split; [assumption|].
    split; [rewrite Hd; apply directory_length|].
    intros i Hi. destruct (Hrec i Hi) as [(nm & Hdec & Hv) _].
    exists nm. split; [assumption|].
    assert (Hnot : ~ (rstrip 0 nm = [] \/
                      exists c, In c forbidden /\ In c (rstrip 0 nm))).
    { rewrite <- Hvalid. congruence. }
    split.
    + intros E. apply Hnot. now left.
    + intros c Hin Hcn. apply Hnot. right. now exists c.
Qed.

(** ** Classification *)

Lemma lower_cp_eqb (x c : Z) :
  0x61 <= c <= 0x7A ->
  (lower_cp x =? c) = (x =? c) || (x =? c - 0x20).
Proof.
  intros Hc. unfold lower_cp.
  destruct (Z.leb_spec 0x41 x), (Z.leb_spec x 0x5A); cbn [andb];
    destruct (Z.eqb_spec x c), (Z.eqb_spec x (c - 0x20));
    cbn [orb]; try lia;
    match goal with |- (?a =? ?b) = _ => destruct (Z.eqb_spec a b) end;
    try reflexivity; lia.
Qed.

Lemma lower_cp_dot (x : Z) : (lower_cp x =? 0x2E) = (x =? 0x2E).
Proof.
  unfold lower_cp.
  destruct (Z.leb_spec 0x41 x), (Z.leb_spec x 0x5A); cbn [andb];
    try reflexivity.
  destruct (Z.eqb_spec (x + 0x20) 0x2E), (Z.eqb_spec x 0x2E);
    try reflexivity; lia.
Qed.

(** [name.lower().endswith('.iaf')] is the case-insensitive suffix test. *)
Lemma endswith_lower_iaf (nm : str) :
  endswith (lower nm) (lit ".iaf") = ends_iaf nm.
Proof.
  change (lit ".iaf") with [0x2E; 0x69; 0x61; 0x66].
  unfold endswith, ends_iaf, lower. rewrite length_map.
  rewrite <- (rev_involutive nm) at 1 2 3.
  destruct (rev nm) as [|f [|a [|i [|d r]]]]; try reflexivity.
  cbn [rev]. rewrite <- !app_assoc. cbn [app].
  rewrite length_app. cbn [length].
  replace (4 <=? length (rev r) + 4)%nat with true
    by (symmetry; apply Nat.leb_le; lia).
  replace (length (rev r) + 4 - 4)%nat with (length (rev r) + 0)%nat by lia.
  rewrite map_app, <- (length_map lower_cp (rev r)), skipn_app, Nat.add_0_r.
  rewrite skipn_all, Nat.sub_diag. cbn [app skipn map str_eqb andb].
  rewrite lower_cp_dot.
  rewrite (lower_cp_eqb i 0x69), (lower_cp_eqb a 0x61), (lower_cp_eqb f 0x66)
    by lia.
  change (0x69 - 0x20) with 0x49. change (0x61 - 0x20) with 0x41.
  change (0x66 - 0x20) with 0x46.
  destruct (d =? 0x2E), ((i =? 0x69) || (i =? 0x49)),
    ((a =? 0x61) || (a =? 0x41)), ((f =? 0x66) || (f =? 0x46)); reflexivity.
Qed.

(** Every iteration that falls through appends the entry built by
    [make_entry] from the flags decoded in that iteration. *)
Lemma loop_body_appends (count es : Z) (idx : bytes) (i : Z)
      (st st' : LoopState) :
  loop_body count es idx i st = Value st' ->
  exists raw sz,
    decode (slice idx (i * es) (i * es + es - 4)) = Value raw /\
    st_dir st' =
      st_dir st ++ [make_entry (rstrip 0 raw) (mask (st_next_offset st)) sz
                               (Z.shiftr (st_next_offset st) 30)].
Proof.
  unfold loop_body. intros H.
  apply bind_Value_inv in H as (raw & Hraw & H).
  destruct (is_valid_entry_name (rstrip 0 raw)); cbn [negb] in H;
    [|discriminate].
  apply bind_Value_inv in H as (fnx & _ & H). injection H as <-.
  exists raw. eexists. split; [assumption | reflexivity].
Qed.

(** C5.  Classification.  The entry built for a record is a plain [Entry]
    (kind Generic, no flags) when the decoded flags are 1 or the name ends
    with [.iaf] in any letter case, and a [CgfEntry] (kind Image) carrying
    the decoded flags otherwise; a name ending in [.iaf] gives Generic also
    for flags 2 and 3.  This is the entry appended by every iteration of
    the loop, and entry [i] of every returned directory. *)
Theorem classification :
  (forall nm off sz fl,
     fl = 1 \/ ends_iaf nm = true ->
     make_entry nm off sz fl = Entry_ nm (lit "image") off sz /\
     kind_of (make_entry nm off sz fl) = Generic /\
     flags (make_entry nm off sz fl) = None) /\
  (forall nm off sz fl,
     fl <> 1 -> ends_iaf nm = false ->
     make_entry nm off sz fl = CgfEntry nm (lit "image") off sz fl /\
     kind_of (make_entry nm off sz fl) = Image fl /\
     flags (make_entry nm off sz fl) = Some fl) /\
  (forall count es idx i st st',
     loop_body count es idx i st = Value st' ->
     exists raw sz,
       decode (slice idx (i * es) (i * es + es - 4)) = Value raw /\
       st_dir st' =
         st_dir st ++ [make_entry (rstrip 0 raw) (mask (st_next_offset st)) sz
                                  (Z.shiftr (st_next_offset st) 30)]) /\
  (forall fn data arc,
     try_open fn data = Value arc ->
     exists count es,
       header data count es /\
       forall i, 0 <= i < count ->
         nth_error (entries arc) (Z.to_nat i) =
         Some (make_entry (name_at data es i) (mask (cur data es i))
                 (mask (nxt data count es i) - mask (cur data es i))
                 (Z.shiftr (cur data es i) 30))).
Proof.
  split; [|split; [|split]].
  - intros nm off sz fl H. unfold make_entry. rewrite endswith_lower_iaf.
    replace ((fl =? 1) || ends_iaf nm) with true; [auto|].
    symmetry. apply orb_true_iff. destruct H as [-> | H]; auto.
  - intros nm off sz fl Hfl Hn. unfold make_entry.
    rewrite endswith_lower_iaf, Hn.
    destruct (Z.eqb_spec fl 1); [contradiction|]. auto.
  - apply loop_body_appends.
  - intros fn data arc H. apply try_open_directory in H
      as (count & es & Hh & _ & _ & _ & Hd).
    exists count, es. split; [assumption|]. intros i Hi.
    rewrite Hd. now apply directory_nth.
Qed.

(** ** Extraction *)

(** C6.  Extraction transform.  For an entry whose content [C], the bytes
    read at [offset] for [size], has at least 3 bytes, [extract_file]
    writes 4 zero bytes, 3 zero bytes and [C[3:]], which is 4 bytes more
    than [C]; the entry may be of either class. *)
Theorem extraction_transform (arc_data : bytes) (entry : Entry)
        (arc arc' : File) (C : bytes) :
  seek (open_rb arc_data) (offset entry) = Value arc ->
  read arc (size entry) = Value (C, arc') ->
  (3 <= length C)%nat ->
  extract_file arc_data entry
  = ([x00; x00; x00; x00] ++ [x00; x00; x00] ++ skipn 3 C, Value tt) /\
  length (fst (extract_file arc_data entry)) = (length C + 4)%nat.
Proof.
  intros Hseek Hread Hlen.
  assert (E : extract_file arc_data entry
              = ([x00; x00; x00; x00] ++ [x00; x00; x00] ++ skipn 3 C, Value tt)).
  { unfold extract_file. rewrite Hseek. cbn [bind]. rewrite Hread.
    reflexivity. }
  split; [exact E|]. rewrite E. cbn [fst].
  rewrite !length_app, length_skipn. cbn [length]. lia.
Qed.

(** ** Size accounting and byte ranges *)

(** C7 (amended).  Size accounting.  In an accepted archive, the sum of the
    entries' sizes plus the index block size plus 4 is the file length
    with bits 30 and 31 cleared; it is the file length itself for every
    accepted archive shorter than [2 ^ 30] bytes. *)
Theorem size_accounting (fn : str) (data : bytes) (arc : ArcFile) :
  try_open fn data = Value arc ->
  exists count es,
    header data count es /\
    sum_sizes (entries arc) + count * es + 4 = mask (file_len data) /\
    (file_len data < 2 ^ 30 ->
     sum_sizes (entries arc) + count * es + 4 = file_len data).
Proof.
  intros H. apply try_open_directory in H
    as (count & es & Hh & Hcount & Hes & Hrec & Hd).
  exists count, es. split; [assumption|].
  assert (Hsum : sum_sizes (entries arc) + count * es + 4
                 = mask (file_len data)).
  { rewrite Hd. unfold directory. rewrite sum_sizes_run by lia.
    destruct (header_field0 _ _ _ Hh) as [_ Hm]. rewrite Hm.
    rewrite nxt_last by lia. lia. }
  split; [exact Hsum|]. intros Hlen. rewrite Hsum.
  apply mask_small. unfold file_len in *. lia.
Qed.

Lemma chained_after (d : list Entry) : forall a : Entry,
  chained (a :: d) ->
  Forall (fun e => 0 < size e) d ->
  Forall (fun b => offset a + size a <= offset b) d.
Proof.
  induction d as [|b d IH]; intros a Hch Hpos; [constructor|].
  destruct Hch as [Hab Hch]. inversion Hpos as [|? ? Hb Hd]; subst.
  constructor; [lia|].
  specialize (IH b Hch Hd).
  eapply Forall_impl; [|exact IH]. cbv beta. intros c Hc. lia.
Qed.

Lemma chained_tail (a : Entry) (d : list Entry) :
  chained (a :: d) -> chained d.
Proof. destruct d; [trivial | intros [_ H]; exact H]. Qed.

Lemma chained_sorted (d : list Entry) :
  chained d ->
  Forall (fun e => 0 < size e) d ->
  ForallOrdPairs
    (fun a b => offset a < offset b /\ offset a + size a <= offset b) d.
Proof.
  induction d as [|a d IH]; intros Hch Hpos; [constructor|].
  inversion Hpos as [|? ? Ha Hd]; subst.
  constructor.
  - pose proof (chained_after d a Hch Hd) as Hafter.
    eapply Forall_impl; [|exact Hafter]. cbv beta. intros b Hb. lia.
  - apply IH; [eapply chained_tail; eassumption | assumption].
Qed.

(** C8 (amended).  Directory ranges.  In every returned directory the
    first entry starts right after the index, every entry starts where the
    previous one ends, and the last entry ends at the file length with
    bits 30 and 31 cleared, which is at most the file length.  When all
    sizes are positive, offsets are strictly increasing and the ranges do
    not overlap. *)
Theorem directory_ranges (fn : str) (data : bytes) (arc : ArcFile) :
  try_open fn data = Value arc ->
  exists count es,
    header data count es /\
    (exists e0, nth_error (entries arc) 0 = Some e0 /\
                offset e0 = 4 + count * es) /\
    chained (entries arc) /\
    end_of 0 (entries arc) = mask (file_len data) /\
    end_of 0 (entries arc) <= file_len data /\
    (Forall (fun e => 0 < size e) (entries arc) ->
     ForallOrdPairs
       (fun a b => offset a < offset b /\ offset a + size a <= offset b)
       (entries arc)).
Proof.
  intros H. apply try_open_directory in H
    as (count & es & Hh & Hcount & Hes & Hrec & Hd).
  exists count, es. split; [assumption|].
  assert (Hch : chained (entries arc)).
  { rewrite Hd. unfold directory. apply chained_run. lia. }
  assert (Hend : end_of 0 (entries arc) = mask (file_len data)).
  { rewrite Hd. unfold directory. rewrite end_of_run by lia.
    f_equal. apply nxt_last. lia. }
  split; [|split; [exact Hch|split; [exact Hend|split]]].
  - exists (entry_at data count es 0). split.
    + rewrite Hd. apply (directory_nth data count es 0). lia.
    + rewrite entry_at_offset. apply header_field0. assumption.
  - rewrite Hend. apply mask_bounds. unfold file_len. lia.
  - intros Hpos. now apply chained_sorted.
Qed.

(** ** What [try_open] does on files that are not archives *)

(** A file shorter than 0x24 bytes is never opened. *)
Lemma try_open_short (fn : str) (data : bytes) :
  file_len data < 0x24 ->
  try_open fn data = ReturnNone \/ try_open fn data = Raise struct_error.
Proof.
  intros Hlen. rewrite try_open_unfold.
  destruct (u32_at data 0) as [count| |e] eqn:Hc; cbn [bind].
  - destruct (is_sane_count count); cbn [negb]; [|now left].
    destruct (u32_at data 0x14) as [o1| |e] eqn:H1; cbn [bind].
    + rewrite (u32_at_short data 0x20) by lia. now right.
    + now left.
    + right. unfold u32_at in H1.
      destruct (Z_lt_le_dec (file_len data) (0x14 + 4)) as [Hs|Hl].
      * pose proof (u32_at_short data 0x14 ltac:(lia) Hs) as E.
        unfold u32_at in E. congruence.
      * destruct (u32_at_long data 0x14 ltac:(lia) Hl) as [v E].
        unfold u32_at in E. congruence.
  - now left.
  - right. unfold u32_at in Hc.
    destruct (slice data 0 (0 + 4)) as [|b0 [|b1 [|b2 [|b3 [|b4 t]]]]];
      simpl in Hc; congruence.
Qed.

(** C10.  [try_open] returns [None] only for one of its three checks: an
    insane count, no layout equation satisfied, or a record whose decoded
    name is invalid.  Other files that are not archives make it raise: a
    file with a sane count but shorter than 0x24 bytes raises
    [struct.error], and an archive whose first name is not valid UTF-8
    raises [UnicodeDecodeError]; the sample files [tiny] and [bad_utf8] are
    instances. *)
Theorem none_only_for_checks (fn : str) (data : bytes) :
  (try_open fn data = ReturnNone ->
   exists count,
     u32_at data 0 = Value count /\
     (is_sane_count count = false \/
      (is_sane_count count = true /\
       exists offset1 offset2,
         u32_at data 0x14 = Value offset1 /\
         u32_at data 0x20 = Value offset2 /\
         select_layout count offset1 offset2 = None) \/
      (exists es i nm,
         header data count es /\ 0 <= i < count /\
         decode (name_bytes data es i) = Value nm /\
         is_valid_entry_name (rstrip 0 nm) = false))) /\
  (forall count,
     u32_at data 0 = Value count -> is_sane_count count = true ->
     file_len data < 0x24 ->
     try_open fn data = Raise struct_error) /\
  (file_len data < 4 -> try_open fn data = Raise struct_error) /\
  (forall count es,
     header data count es ->
     decode_utf8 (name_bytes data es 0) = None ->
     try_open fn data = Raise UnicodeDecodeError) /\
  try_open fn Samples.tiny = Raise struct_error /\
  try_open fn Samples.bad_utf8 = Raise UnicodeDecodeError.
Proof.
  split; [|split; [|split; [|split; [|split; vm_compute; reflexivity]]]].
  - rewrite try_open_unfold. intros H.
    apply bind_None_inv in H as [H | (count & Hc & H)];
      [now apply unpack_u32_not_None in H|].
    exists count. split; [assumption|].
    destruct (is_sane_count count) eqn:Hsane; cbn [negb] in H; [|now left].
    right.
    apply bind_None_inv in H as [H | (o1 & Ho1 & H)];
      [now apply unpack_u32_not_None in H|].
    apply bind_None_inv in H as [H | (o2 & Ho2 & H)];
      [now apply unpack_u32_not_None in H|].
    destruct (select_layout count o1 o2) as [[es first]|] eqn:Hs.
    + right.
      assert (Hh : header data count es).
      { split; [assumption|]. split; [assumption|]. now exists o1, o2, first. }
      pose proof (header_entry_size _ _ _ Hh) as Hes.
      apply sane_count_range in Hsane.
      apply bind_None_inv in H as [H | (st & _ & H)]; [|discriminate].
      unfold run_loop in H.
      apply (run_None data count es ltac:(lia)) in H
        as (j & nm & Hj & Hd & Hv); [|lia|lia].
      exists es, j, nm. split; [exact Hh|]. split; [lia|]. split; assumption.
    + left. split; [reflexivity|]. now exists o1, o2.
  - intros count Hc Hsane Hlen.
    rewrite try_open_unfold, Hc; cbn [bind]. rewrite Hsane; cbn [negb].
    destruct (Z_lt_le_dec (file_len data) (0x14 + 4)) as [Hs|Hl].
    + now rewrite (u32_at_short data 0x14) by lia.
    + destruct (u32_at_long data 0x14 ltac:(lia) Hl) as [v ->]; cbn [bind].
      now rewrite (u32_at_short data 0x20) by lia.
  - intros Hlen. rewrite try_open_unfold.
    now rewrite (u32_at_short data 0) by lia.
  - intros count es Hh Hd.
    pose proof (header_entry_size _ _ _ Hh) as Hes.
    destruct Hh as (Hc & Hsane & o1 & o2 & first & Ho1 & Ho2 & Hs).
    rewrite try_open_unfold, Hc; cbn [bind]. rewrite Hsane; cbn [negb].
    rewrite Ho1, Ho2; cbn [bind]. rewrite Hs.
    apply sane_count_range in Hsane. unfold run_loop.
    rewrite (run_stops data count es ltac:(lia) (Raise UnicodeDecodeError) 0);
      try reflexivity; try lia; try discriminate.
    intros s. apply body_undecodable; [lia | lia | assumption].
Qed.

(* ================================================================== *)
(** * The properties on the sample files *)
(* ================================================================== *)

Import Samples.

Lemma three_opens : try_open archive_name three = Value three_arc.
Proof. vm_compute. reflexivity. Qed.

Lemma three_header : header three 3 0x20.
Proof.
  split; [vm_compute; reflexivity|]. split; [reflexivity|].
  exists 0, 2147483748, 2147483748. repeat split; vm_compute; reflexivity.
Qed.

Lemma offsets_and_sizes_witness :
  try_open archive_name three = Value three_arc /\
  length (entries three_arc) = Z.to_nat 3.
Proof.
  split; [exact three_opens|].
  destruct (offsets_and_sizes archive_name three three_arc three_opens)
    as (count & es & o1 & o2 & Hc & _ & _ & _ & Hlen & _).
  vm_compute in Hc. injection Hc as <-. exact Hlen.
Defined.

Lemma layout_detection_witness :
  u32_at three 0 = Value 3 /\
  is_sane_count 3 = true /\
  0x24 <= file_len three /\
  u32_at three 0x14 = Value 0 /\
  u32_at three 0x20 = Value 2147483748 /\
  select_layout 3 0 2147483748 = Some (0x20, 2147483748) /\
  try_open archive_name three =
  (st <- run_loop three 3 0x20 2147483748 (Z.to_nat 3) ;;
   Value (mkArcFile archive_name (st_dir st))).
Proof.
  assert (H0 : u32_at three 0 = Value 3) by (vm_compute; reflexivity).
  assert (H1 : u32_at three 0x14 = Value 0) by (vm_compute; reflexivity).
  assert (H2 : u32_at three 0x20 = Value 2147483748)
    by (vm_compute; reflexivity).
  assert (Hl : 0x24 <= file_len three) by (vm_compute; discriminate).
  assert (Hs : select_layout 3 0 2147483748 = Some (0x20, 2147483748))
    by (vm_compute; reflexivity).
  repeat (split; [first [assumption | reflexivity]|]).
  destruct (layout_detection archive_name three 3 H0 eq_refl) as [_ H].
  destruct (H Hl) as (o1 & o2 & Ho1 & Ho2 & _ & _ & _ & _ & _ & _ & _ & Hrun).
  assert (o1 = 0) by congruence. assert (o2 = 2147483748) by congruence.
  subst o1 o2. exact (Hrun 0x20 2147483748 Hs).
Defined.

(** C3, as stated, fails on files shorter than 0x24 bytes.  In [tiny] the
    count is sane and the 0x14 equation holds, but [try_open] selects no
    layout: it raises [struct.error] at the probe at 0x20.  In [short32]
    the count is sane and the 0x14 equation does not hold, and [try_open]
    raises [struct.error] instead of returning [None]. *)
Lemma layout_detection_counterexample :
  (file_len tiny = 0x18 /\
   u32_at tiny 0 = Value 1 /\
   is_sane_count 1 = true /\
   u32_at tiny 0x14 = Value 1073741848 /\
   4 + 1 * 0x14 = mask 1073741848 /\
   try_open archive_name tiny = Raise struct_error) /\
  (file_len short32 = 0x20 /\
   u32_at short32 0 = Value 1 /\
   u32_at short32 0x14 = Value 0 /\
   mask 0 = 0 /\
   u32_at short32 0x20 = Raise struct_error /\
   try_open archive_name short32 = Raise struct_error).
Proof. repeat split; vm_compute; reflexivity. Qed.

Lemma bad_second_header : header bad_second 2 0x14.
Proof.
  split; [vm_compute; reflexivity|]. split; [reflexivity|].
  exists 44, 0, 44. repeat split; vm_compute; reflexivity.
Qed.

Lemma rejection_conditions_witness :
  u32_at bad_second 0 = Value 2 /\
  u32_at no_layout 0 = Value 1 /\
  u32_at zero_count 0 = Value 0 /\
  decode (name_bytes bad_second 0x14 1)
  = Value (lit "a|b" ++ repeat 0 13) /\
  try_open archive_name bad_second = ReturnNone /\
  try_open archive_name no_layout = ReturnNone /\
  try_open archive_name zero_count = ReturnNone.
Proof.
  assert (H2 : u32_at bad_second 0 = Value 2) by (vm_compute; reflexivity).
  assert (H1 : u32_at no_layout 0 = Value 1) by (vm_compute; reflexivity).
  assert (H0 : u32_at zero_count 0 = Value 0) by (vm_compute; reflexivity).
  assert (Hd : decode (name_bytes bad_second 0x14 1)
               = Value (lit "a|b" ++ repeat 0 13))
    by (vm_compute; reflexivity).
  split; [exact H2|]. split; [exact H1|]. split; [exact H0|].
  split; [exact Hd|]. split; [|split].
  - destruct (rejection_conditions archive_name bad_second 2 H2)
      as (_ & _ & H & _).
    apply (H 0x14 1 (lit "a|b" ++ repeat 0 13) bad_second_header).
    + lia.
    + vm_compute. discriminate.
    + intros j Hj. assert (j = 0) as -> by lia.
      exists (lit "a" ++ repeat 0 15). split; vm_compute; reflexivity.
    + exact Hd.
    + vm_compute. reflexivity.
  - destruct (rejection_conditions archive_name no_layout 1 H1)
      as (_ & H & _).
    destruct (H eq_refl) as (o1 & o2 & Ho1 & Ho2 & Hnone).
    { vm_compute. discriminate. }
    vm_compute in Ho1, Ho2. injection Ho1 as <-. injection Ho2 as <-.
    apply Hnone; vm_compute; discriminate.
  - destruct (rejection_conditions archive_name zero_count 0 H0) as [H _].
    apply H. left. reflexivity.
Defined.

(** C4, as stated, fails on files that end too early.  In [short32] the
    count is sane and neither layout equation holds, and in [cut42] the
    0x14 layout is selected and the second name decodes to [a|b], which
    holds a forbidden character; [try_open] raises [struct.error] on
    both, where the claim has it return [None]. *)
Lemma rejection_conditions_counterexample :
  (u32_at short32 0 = Value 1 /\
   is_sane_count 1 = true /\
   u32_at short32 0x14 = Value 0 /\
   u32_at short32 0x20 = Raise struct_error /\
   try_open archive_name short32 = Raise struct_error) /\
  (file_len cut42 = 42 /\
   header cut42 2 0x14 /\
   decode (name_bytes cut42 0x14 1) = Value (lit "a|b" ++ repeat 0 13) /\
   is_valid_entry_name (rstrip 0 (lit "a|b" ++ repeat 0 13)) = false /\
   try_open archive_name cut42 = Raise struct_error).
Proof.
  split; [repeat split; vm_compute; reflexivity|].
  split; [vm_compute; reflexivity|]. split.
  { split; [vm_compute; reflexivity|]. split; [reflexivity|].
    exists 44, 0, 44. repeat split; vm_compute; reflexivity. }
  repeat split; vm_compute; reflexivity.
Qed.

Lemma classification_witness :
  try_open archive_name three = Value three_arc /\
  nth_error (entries three_arc) 1
  = Some (make_entry (lit "b.IaF") 112 3 3) /\
  make_entry (lit "b.IaF") 112 3 3 = Entry_ (lit "b.IaF") (lit "image") 112 3 /\
  kind_of (make_entry (lit "b.IaF") 112 3 3) = Generic /\
  make_entry (lit "A.IMG") 100 12 2
  = CgfEntry (lit "A.IMG") (lit "image") 100 12 2 /\
  loop_body 3 0x20 (index_block three 0x20 3) 1 three_state_1
  = Value three_state_2 /\
  st_dir three_state_2
  = st_dir three_state_1 ++ [make_entry (lit "b.IaF") 112 3 3].
Proof.
  destruct classification as (Hgen & Himg & Hbody & Hopen).
  assert (Hstep : loop_body 3 0x20 (index_block three 0x20 3) 1 three_state_1
                  = Value three_state_2) by (vm_compute; reflexivity).
  split; [exact three_opens|]. split; [|split; [|split; [|split; [|split]]]].
  - destruct (Hopen archive_name three three_arc three_opens)
      as (count & es & Hh & Hnth).
    destruct (header_unique _ _ _ _ _ Hh three_header) as [-> ->].
    pose proof (Hnth 1 ltac:(lia)) as H1.
    change (Z.to_nat 1) with 1%nat in H1. rewrite H1.
    vm_compute. reflexivity.
  - apply (Hgen (lit "b.IaF") 112 3 3). right. vm_compute. reflexivity.
  - apply (Hgen (lit "b.IaF") 112 3 3). right. vm_compute. reflexivity.
  - apply (Himg (lit "A.IMG") 100 12 2); [discriminate|].
    vm_compute. reflexivity.
  - exact Hstep.
  - destruct (Hbody _ _ _ _ _ _ Hstep) as (raw & sz & Hraw & Hdir).
    vm_compute in Hraw. injection Hraw as Hr. subst raw.
    vm_compute in Hdir. injection Hdir as Hsz. subst sz.
    vm_compute. reflexivity.
Defined.

Lemma extraction_transform_witness :
  seek (open_rb example_12) (offset example_entry)
  = Value (mkFile example_12 0x18) /\
  read (mkFile example_12 0x18) (size example_entry)
  = Value (ascii_bytes "0123456789ab", mkFile example_12 0x24) /\
  (3 <= length (ascii_bytes "0123456789ab"))%nat /\
  extract_file example_12 example_entry
  = ([x00; x00; x00; x00] ++ [x00; x00; x00]
     ++ skipn 3 (ascii_bytes "0123456789ab"), Value tt) /\
  length (fst (extract_file example_12 example_entry))
  = (length (ascii_bytes "0123456789ab") + 4)%nat.
Proof.
  assert (H0 : seek (open_rb example_12) (offset example_entry)
               = Value (mkFile example_12 0x18)) by (vm_compute; reflexivity).
  assert (H1 : read (mkFile example_12 0x18) (size example_entry)
               = Value (ascii_bytes "0123456789ab", mkFile example_12 0x24))
    by (vm_compute; reflexivity).
  assert (H2 : (3 <= length (ascii_bytes "0123456789ab"))%nat)
    by (vm_compute; lia).
  split; [exact H0|]. split; [exact H1|]. split; [exact H2|].
  exact (extraction_transform example_12 example_entry _ _ _ H0 H1 H2).
Defined.

Lemma size_accounting_witness :
  try_open archive_name three = Value three_arc /\
  sum_sizes (entries three_arc) + 3 * 0x20 + 4 = file_len three.
Proof.
  split; [exact three_opens|].
  destruct (size_accounting archive_name three three_arc three_opens)
    as (count & es & Hh & _ & Hlen).
  destruct (header_unique _ _ _ _ _ Hh three_header) as [-> ->].
  apply Hlen. vm_compute. reflexivity.
Defined.

Lemma directory_ranges_witness :
  try_open archive_name three = Value three_arc /\
  chained (entries three_arc) /\
  end_of 0 (entries three_arc) <= file_len three.
Proof.
  split; [exact three_opens|].
  destruct (directory_ranges archive_name three three_arc three_opens)
    as (count & es & _ & _ & Hch & _ & Hend & _).
  split; assumption.
Defined.

(** The file [gib] is accepted, and its single size is negative. *)
Lemma example_12_then (t : bytes) :
  header (example_12 ++ t) 1 0x14 /\
  try_open archive_name (example_12 ++ t)
  = Value (mkArcFile archive_name
             [CgfEntry (lit "A.IMG") (lit "image") 0x18
                (mask (file_len (example_12 ++ t)) - 0x18) 0]).
Proof.
  split.
  - split; [vm_compute; reflexivity|]. split; [reflexivity|].
    exists 24, 1650538808, 24. repeat split; vm_compute; reflexivity.
  - vm_compute. reflexivity.
Qed.

Lemma gib_len : file_len gib = 2 ^ 30.
Proof.
  unfold gib, file_len. rewrite length_app, repeat_length, Nat2Z.inj_add.
  rewrite Z2Nat.id by discriminate.
  change (Z.of_nat (length example_12)) with 36. reflexivity.
Qed.

(** C7, as stated, fails on a file of [2 ^ 30] bytes: the archive is
    accepted with count 1 and record size 0x14, and the sizes, the index
    and the count field add up to 0, not to the file length. *)
Lemma size_accounting_counterexample :
  header gib 1 0x14 /\
  file_len gib = 2 ^ 30 /\
  exists arc,
    try_open archive_name gib = Value arc /\
    sum_sizes (entries arc) + 1 * 0x14 + 4 = 0 /\
    sum_sizes (entries arc) + 1 * 0x14 + 4 <> file_len gib.
Proof.
  destruct (example_12_then (repeat x00 (Z.to_nat (2 ^ 30 - 36)))) as [Hh Ho].
  fold gib in Hh, Ho. rewrite gib_len in Ho.
  split; [exact Hh|]. split; [exact gib_len|].
  eexists. split; [exact Ho|]. rewrite gib_len.
  split; [reflexivity | discriminate].
Qed.

(** C8, as stated, fails on [unordered]: the archive is accepted, the
    second size is negative, the third entry starts before the second, and
    the first and third ranges overlap. *)
Lemma directory_ranges_counterexample :
  try_open archive_name unordered = Value unordered_arc /\
  exists e0 e1 e2,
    entries unordered_arc = [e0; e1; e2] /\
    size e1 < 0 /\
    offset e2 < offset e1 /\
    offset e0 < offset e2 /\ offset e2 < offset e0 + size e0.
Proof.
  split; [vm_compute; reflexivity|].
  do 3 eexists. split; [reflexivity|].
  repeat split.
Qed.

(** C9, as stated, fails: the archive of the example has fewer than 0x24
    bytes, with the trailing field 0 as with the trailing field 0x18, and
    [try_open] raises [struct.error] when it reads the probe at 0x20. *)
Lemma end_to_end_counterexample :
  file_len example_field_0 = 0x22 /\
  try_open archive_name example_field_0 = Raise struct_error /\
  try_open archive_name example_field_18 = Raise struct_error /\
  try_open archive_name example_cut = Raise struct_error.
Proof. repeat split; vm_compute; reflexivity. Qed.

(** C9 (amended).  End-to-end example.  The archive with count 1, record
    size 0x14, name [A.IMG], trailing field 0x18 (offset 0x18, flags 0) and
    the 12 payload bytes [0123456789ab] has 0x24 bytes; [try_open] yields
    exactly one Image entry, named [A.IMG], at offset 0x18, of size 12, and
    extracting it writes 7 zero bytes followed by [3456789ab]. *)
Theorem end_to_end_example :
  example_12 = one_record 0x18 (ascii_bytes "0123456789ab") /\
  file_len example_12 = 0x24 /\
  try_open archive_name example_12
  = Value (mkArcFile archive_name
             [CgfEntry (lit "A.IMG") (lit "image") 0x18 12 0]) /\
  kind_of example_entry = Image 0 /\
  extract_file example_12 example_entry
  = (repeat x00 7 ++ ascii_bytes "3456789ab", Value tt).
Proof. repeat split; vm_compute; reflexivity. Qed.

(* ================================================================== *)
(** * Synthetic archives are read back *)
(* ================================================================== *)

Module SynthFacts.

Import Synth.

Ltac zdiv := Z.to_euclidean_division_equations; lia.

Lemma byte_val_of (z : Z) : 0 <= z < 256 -> byte_val (byte_of z) = z.
Proof.
  intros Hz. unfold byte_val, byte_of.
  destruct (Byte.of_N (Z.to_N z)) as [b|] eqn:E.
  - apply Byte.to_of_N in E. rewrite E. lia.
  - apply Byte.of_N_None_iff in E. lia.
Qed.

Lemma pack_u32_length (v : Z) : length (pack_u32 v) = 4%nat.
Proof. reflexivity. Qed.

Lemma unpack_pack (v : Z) :
  0 <= v < 2 ^ 32 -> unpack_u32 (pack_u32 v) = Value v.
Proof.
  intros Hv. unfold pack_u32. cbn [map unpack_u32].
  rewrite !byte_val_of by (apply Z.mod_pos_bound; lia).
  f_equal. zdiv.
Qed.

(** ** The packed field *)

Lemma pack_field_add (fl off : Z) :
  0 <= fl -> 0 <= off < 2 ^ 30 -> pack_field fl off = fl * 2 ^ 30 + off.
Proof.
  intros Hfl Hoff. unfold pack_field.
  rewrite <- Z.add_lor_land, Z.shiftl_mul_pow2 by lia.
  assert (E : Z.land (fl * 2 ^ 30) off = 0); [|lia].
  apply Z.bits_inj'; intros n Hn. rewrite Z.land_spec, Z.bits_0.
  destruct (Z_lt_le_dec n 30) as [Hlt|Hge].
  - now rewrite Z.mul_pow2_bits_low by lia.
  - destruct (Z.eq_dec off 0) as [->|Hne].
    + rewrite Z.bits_0. apply andb_false_r.
    + rewrite (Z.bits_above_log2 off n); [apply andb_false_r | lia |].
      assert (Z.log2 off < 30) by (apply Z.log2_lt_pow2; lia). lia.
Qed.

Lemma pack_field_read (fl off : Z) :
  0 <= fl <= 3 -> 0 <= off < 2 ^ 30 ->
  0 <= pack_field fl off < 2 ^ 32 /\
  mask (pack_field fl off) = off /\
  Z.shiftr (pack_field fl off) 30 = fl.
Proof.
  intros Hfl Hoff. rewrite pack_field_add by lia.
  assert (Hr : 0 <= fl * 2 ^ 30 + off < 2 ^ 32) by lia.
  split; [exact Hr|]. split.
  - rewrite mask_u32 by exact Hr. zdiv.
  - rewrite Z.shiftr_div_pow2 by lia. zdiv.
Qed.

(** ** UTF-8: decoding an encoded string *)

Lemma decode_1 (b0 : byte) (t : bytes) :
  byte_val b0 < 0x80 ->
  decode_utf8 (b0 :: t) = option_map (cons (byte_val b0)) (decode_utf8 t).
Proof.
  intros H. cbn [decode_utf8].
  destruct (Z.ltb_spec (byte_val b0) 0x80); [reflexivity | lia].
Qed.

Lemma decode_2 (b0 b1 : byte) (t : bytes) :
  0xC2 <= byte_val b0 <= 0xDF -> cont b1 = true ->
  decode_utf8 (b0 :: b1 :: t)
  = option_map (cons ((byte_val b0 - 0xC0) * 64 + cbits b1)) (decode_utf8 t).
Proof.
  intros H Hc. cbn [decode_utf8]. rewrite Hc.
  destruct (Z.ltb_spec (byte_val b0) 0x80); [lia|].
  destruct (Z.leb_spec 0xC2 (byte_val b0)); [|lia].
  destruct (Z.leb_spec (byte_val b0) 0xDF); [|lia].
  reflexivity.
Qed.

Lemma decode_3 (b0 b1 b2 : byte) (t : bytes) :
  0xE0 <= byte_val b0 <= 0xEF ->
  second3 (byte_val b0) b1 = true -> cont b2 = true ->
  decode_utf8 (b0 :: b1 :: b2 :: t)
  = option_map
      (cons ((byte_val b0 - 0xE0) * 4096 + cbits b1 * 64 + cbits b2))
      (decode_utf8 t).
Proof.
  intros H H1 H2. cbn [decode_utf8]. rewrite H1, H2.
  destruct (Z.ltb_spec (byte_val b0) 0x80); [lia|].
  destruct (Z.leb_spec 0xC2 (byte_val b0)); [|lia].
  destruct (Z.leb_spec (byte_val b0) 0xDF); [lia|].
  destruct (Z.leb_spec 0xE0 (byte_val b0)); [|lia].
  destruct (Z.leb_spec (byte_val b0) 0xEF); [|lia].
  reflexivity.
Qed.

Lemma decode_4 (b0 b1 b2 b3 : byte) (t : bytes) :
  0xF0 <= byte_val b0 <= 0xF4 ->
  second4 (byte_val b0) b1 = true -> cont b2 = true -> cont b3 = true ->
  decode_utf8 (b0 :: b1 :: b2 :: b3 :: t)
  = option_map
      (cons ((byte_val b0 - 0xF0) * 262144 + cbits b1 * 4096
             + cbits b2 * 64 + cbits b3))
      (decode_utf8 t).
Proof.
  intros H H1 H2 H3. cbn [decode_utf8]. rewrite H1, H2, H3.
  destruct (Z.ltb_spec (byte_val b0) 0x80); [lia|].
  destruct (Z.leb_spec 0xC2 (byte_val b0)); [|lia].
  destruct (Z.leb_spec (byte_val b0) 0xDF); [lia|].
  destruct (Z.leb_spec 0xE0 (byte_val b0)); [|lia].
  destruct (Z.leb_spec (byte_val b0) 0xEF); [lia|].
  destruct (Z.leb_spec 0xF0 (byte_val b0)); [|lia].
  destruct (Z.leb_spec (byte_val b0) 0xF4); [|lia].
  reflexivity.
Qed.

Lemma in_range_of (lo hi z : Z) :
  0 <= z < 256 -> lo <= z <= hi -> in_range lo hi (byte_of z) = true.
Proof.
  intros Hz H. unfold in_range. rewrite byte_val_of by lia.
  apply andb_true_iff. split; apply Z.leb_le; lia.
Qed.

Lemma cont_of (z : Z) : 0 <= z < 64 -> cont (byte_of (0x80 + z)) = true.
Proof. intros Hz. apply in_range_of; lia. Qed.

Lemma cbits_of (z : Z) : 0 <= z < 64 -> cbits (byte_of (0x80 + z)) = z.
Proof. intros Hz. unfold cbits. rewrite byte_val_of by lia. lia. Qed.

Lemma decode_encode_cp (c : Z) (t : bytes) :
  scalar c ->
  decode_utf8 (map byte_of (encode_cp c) ++ t)
  = option_map (cons c) (decode_utf8 t).
Proof.
  intros Hc. unfold encode_cp.
  destruct (Z.ltb_spec c 0x80) as [H1|H1];
    [|destruct (Z.ltb_spec c 0x800) as [H2|H2];
      [|destruct (Z.ltb_spec c 0x10000) as [H3|H3]]];
    cbn [map app].
  - rewrite decode_1; rewrite byte_val_of; try reflexivity;
      unfold scalar in Hc; lia.
  - assert (0 <= c / 64 < 32) by zdiv. assert (0 <= c mod 64 < 64) by zdiv.
    assert (2 <= c / 64) by zdiv.
    rewrite decode_2; [|rewrite byte_val_of; lia | now apply cont_of].
    rewrite byte_val_of, cbits_of by lia. do 2 f_equal. zdiv.
  - assert (0 <= c / 4096 < 16) by zdiv.
    assert (0 <= (c / 64) mod 64 < 64) by zdiv.
    assert (0 <= c mod 64 < 64) by zdiv.
    rewrite decode_3;
      [|rewrite byte_val_of; lia | | now apply cont_of].
    + rewrite byte_val_of, !cbits_of by lia. do 2 f_equal. zdiv.
    + rewrite byte_val_of by lia. unfold second3.
      destruct (Z.eqb_spec (0xE0 + c / 4096) 0xE0) as [E|E].
      * apply in_range_of; [lia|]. zdiv.
      * destruct (Z.eqb_spec (0xE0 + c / 4096) 0xED) as [E'|E'].
        -- apply in_range_of; [lia|]. unfold scalar in Hc. zdiv.
        -- now apply cont_of.
  - assert (Hs : 0x10000 <= c < 0x110000) by (unfold scalar in Hc; lia).
    assert (0 <= c / 262144 <= 4) by zdiv.
    assert (0 <= (c / 4096) mod 64 < 64) by zdiv.
    assert (0 <= (c / 64) mod 64 < 64) by zdiv.
    assert (0 <= c mod 64 < 64) by zdiv.
    rewrite decode_4;
      [|rewrite byte_val_of; lia | | now apply cont_of | now apply cont_of].
    + rewrite byte_val_of, !cbits_of by lia. do 2 f_equal. zdiv.
    + rewrite byte_val_of by lia. unfold second4.
      destruct (Z.eqb_spec (0xF0 + c / 262144) 0xF0) as [E|E].
      * apply in_range_of; [lia|]. zdiv.
      * destruct (Z.eqb_spec (0xF0 + c / 262144) 0xF4) as [E'|E'].
        -- apply in_range_of; [lia|]. zdiv.
        -- now apply cont_of.
Qed.

Lemma decode_encode (n : str) (t : bytes) :
  Forall scalar n ->
  decode_utf8 (encode n ++ t) = option_map (app n) (decode_utf8 t).
Proof.
  induction 1 as [|c n Hc Hn IH]; cbn [encode flat_map app].
  - now destruct (decode_utf8 t).
  - fold (encode n). rewrite <- app_assoc, decode_encode_cp, IH by assumption.
    now destruct (decode_utf8 t).
Qed.

Lemma decode_zeros (k : nat) : decode_utf8 (repeat x00 k) = Some (repeat 0 k).
Proof.
  induction k as [|k IH]; [reflexivity|].
  cbn [repeat]. rewrite decode_1 by (vm_compute; reflexivity).
  now rewrite IH.
Qed.

Lemma decode_name_field (es : Z) (n : str) :
  Forall scalar n ->
  decode (name_field es n)
  = Value (n ++ repeat 0 (Z.to_nat (es - 4) - length (encode n))).
Proof.
  intros Hn. unfold decode, name_field.
  now rewrite decode_encode, decode_zeros by assumption.
Qed.

(** ** Stripping the padding *)

Lemma rstrip_zeros (k : nat) : rstrip 0 (repeat 0 k) = [].
Proof.
  induction k as [|k IH]; [reflexivity|].
  cbn [repeat rstrip]. now rewrite IH.
Qed.

Lemma rstrip_app_zeros (n : str) (k : nat) :
  rstrip 0 (n ++ repeat 0 k) = rstrip 0 n.
Proof.
  induction n as [|x n IH]; cbn [app rstrip].
  - apply rstrip_zeros.
  - now rewrite IH.
Qed.

(** ** The shape of a serialized archive *)

Lemma slice_mid {A} (P X R : list A) (a b : Z) :
  a = Z.of_nat (length P) -> b - a = Z.of_nat (length X) ->
  slice (P ++ X ++ R) a b = X.
Proof.
  intros Ha Hb. unfold slice.
  replace (Z.to_nat a) with (length P) by lia.
  replace (Z.to_nat (b - a)) with (length X) by lia.
  rewrite skipn_app, skipn_all, Nat.sub_diag. cbn [skipn app].
  rewrite firstn_app, firstn_all, Nat.sub_diag. cbn [firstn].
  apply app_nil_r.
Qed.

Lemma total_app (pre post : list Item) :
  total (pre ++ post) = total pre + total post.
Proof.
  induction pre as [|it pre IH]; cbn [app total fold_right]; [reflexivity|].
  fold (total (pre ++ post)). fold (total pre). lia.
Qed.

Lemma total_nonneg (items : list Item) : 0 <= total items.
Proof.
  induction items as [|it items IH]; cbn [total fold_right]; [lia|].
  fold (total items). unfold plen. lia.
Qed.

Lemma payloads_length (items : list Item) :
  Z.of_nat (length (payloads items)) = total items.
Proof.
  induction items as [|it items IH]; [reflexivity|].
  cbn [payloads flat_map total fold_right]. fold (payloads items).
  fold (total items). rewrite length_app. unfold plen. lia.
Qed.

Section Records.

Variable es : Z.
Hypothesis Hes : 4 <= es.

Lemma name_field_length (n : str) :
  Z.of_nat (length (encode n)) <= es - 4 ->
  Z.of_nat (length (name_field es n)) = es - 4.
Proof.
  intros H. unfold name_field. rewrite length_app, repeat_length. lia.
Qed.

Lemma record_length (it : Item) (off : Z) :
  item_ok es it -> Z.of_nat (length (record es it off)) = es.
Proof.
  intros [(_ & _ & _ & Hfit) _]. unfold record.
  rewrite length_app, Nat2Z.inj_add, name_field_length, pack_u32_length
    by assumption.
  lia.
Qed.

Lemma index_length (items : list Item) : forall off : Z,
  Forall (item_ok es) items ->
  Z.of_nat (length (index es items off)) = Z.of_nat (length items) * es.
Proof.
  induction items as [|it items IH]; intros off Hok; [reflexivity|].
  inversion Hok as [|? ? Hit Hrest]; subst.
  cbn [index length]. rewrite length_app, Nat2Z.inj_add, record_length, IH
    by assumption.
  lia.
Qed.

Lemma index_app (pre post : list Item) : forall off : Z,
  index es (pre ++ post) off
  = index es pre off ++ index es post (off + total pre).
Proof.
  induction pre as [|it pre IH]; intros off; cbn [app index total fold_right].
  - now rewrite Z.add_0_r.
  - fold (total pre). rewrite IH, <- app_assoc. do 3 f_equal. lia.
Qed.

Lemma expected_app (pre post : list Item) : forall off : Z,
  expected (pre ++ post) off
  = expected pre off ++ expected post (off + total pre).
Proof.
  induction pre as [|it pre IH]; intros off; cbn [app expected total fold_right].
  - now rewrite Z.add_0_r.
  - fold (total pre). rewrite IH. do 3 f_equal. lia.
Qed.

Lemma expected_length (items : list Item) : forall off : Z,
  length (expected items off) = length items.
Proof.
  induction items as [|it items IH]; intros off; cbn [expected length];
    [reflexivity | now rewrite IH].
Qed.

Lemma serialize_len (items : list Item) :
  Forall (item_ok es) items ->
  file_len (serialize es items) = 4 + count_of items * es + total items.
Proof.
  intros Hok. unfold file_len, serialize.
  rewrite !length_app, !Nat2Z.inj_add, pack_u32_length, index_length,
    payloads_length by assumption.
  unfold count_of. lia.
Qed.

(** The archive around its record number [length pre]. *)
Lemma serialize_split (pre post : list Item) (it : Item) :
  let items := pre ++ it :: post in
  let off := 4 + count_of items * es + total pre in
  serialize es items
  = (pack_u32 (count_of items) ++ index es pre (4 + count_of items * es))
    ++ name_field es (it_name it)
    ++ pack_u32 (pack_field (it_flags it) off)
    ++ (index es post (off + plen it) ++ payloads items).
Proof.
  intros items off. unfold serialize. fold items.
  unfold items at 2. rewrite index_app. cbn [index]. unfold record.
  fold off. now rewrite <- !app_assoc.
Qed.

Lemma name_bytes_serialize (pre post : list Item) (it : Item) :
  Forall (item_ok es) (pre ++ it :: post) ->
  name_bytes (serialize es (pre ++ it :: post)) es (Z.of_nat (length pre))
  = name_field es (it_name it).
Proof.
  intros Hok. rewrite serialize_split. unfold name_bytes.
  apply Forall_app in Hok as [Hpre Hpost].
  inversion Hpost as [|? ? Hit _]; subst.
  apply slice_mid.
  - rewrite length_app, Nat2Z.inj_add, pack_u32_length, index_length
      by assumption. lia.
  - rewrite name_field_length by apply Hit. lia.
Qed.

Lemma trailing_field_serialize (pre post : list Item) (it : Item) :
  let items := pre ++ it :: post in
  Forall (item_ok es) items ->
  0 <= pack_field (it_flags it) (4 + count_of items * es + total pre) < 2 ^ 32 ->
  trailing_field (serialize es items) es (Z.of_nat (length pre))
  = Value (pack_field (it_flags it) (4 + count_of items * es + total pre)).
Proof.
  intros items Hok Hrange. unfold items. rewrite serialize_split. fold items.
  unfold trailing_field, u32_at.
  apply Forall_app in Hok as [Hpre Hpost].
  inversion Hpost as [|? ? Hit _]; subst.
  rewrite (app_assoc _ (name_field es (it_name it))).
  rewrite slice_mid; [now apply unpack_pack | |].
  - rewrite !length_app, !Nat2Z.inj_add, pack_u32_length, index_length,
      name_field_length by (assumption || apply Hit). lia.
  - rewrite pack_u32_length. lia.
Qed.

End Records.

(** ** Reading the records of a serialized archive *)

Section ReadBack.

Variables (es : Z) (items : list Item).
Hypothesis Hes : es = 0x14 \/ es = 0x20.
Hypothesis Hok : Forall (item_ok es) items.
Hypothesis Hlen : file_len (serialize es items) < 2 ^ 30.

Local Abbreviation data := (serialize es items).
Local Abbreviation count := (count_of items).
Local Abbreviation off0 := (4 + count_of items * es).

Lemma offsets_in_range (pre post : list Item) (it : Item) :
  items = pre ++ it :: post ->
  0 <= off0 + total pre /\
  off0 + total pre + plen it + total post = file_len data /\
  off0 + total pre + plen it < 2 ^ 30.
Proof.
  intros E. rewrite serialize_len in * by (assumption || lia).
  pose proof (total_nonneg pre). pose proof (total_nonneg post).
  assert (Ht : total items = total pre + plen it + total post).
  { rewrite E, total_app. cbn [total fold_right]. fold (total post). lia. }
  assert (0 <= plen it) by (unfold plen; lia).
  assert (0 <= count) by (unfold count_of; lia).
  split; [nia|]. split; [lia|]. nia.
Qed.

Lemma record_read_back (pre post : list Item) (it : Item) :
  items = pre ++ it :: post ->
  name_ok data es (Z.of_nat (length pre)) /\
  name_at data es (Z.of_nat (length pre)) = it_name it /\
  trailing_field data es (Z.of_nat (length pre))
  = Value (pack_field (it_flags it) (off0 + total pre)) /\
  mask (cur data es (Z.of_nat (length pre))) = off0 + total pre /\
  Z.shiftr (cur data es (Z.of_nat (length pre))) 30 = it_flags it.
Proof.
  intros E.
  assert (Hes4 : 4 <= es) by lia.
  destruct (offsets_in_range pre post it E) as (Hlo & Hsum & Hhi).
  assert (Hit : item_ok es it).
  { rewrite E in Hok. apply Forall_app in Hok as [_ Hpost].
    now inversion Hpost. }
  destruct Hit as [(Hscalar & Hvalid & Hstrip & Hfit) Hfl].
  assert (0 <= plen it) by (unfold plen; lia).
  destruct (pack_field_read (it_flags it) (off0 + total pre))
    as (Hrange & Hmask & Hshift); [lia | lia |].
  assert (Hname : name_bytes data es (Z.of_nat (length pre))
                  = name_field es (it_name it)).
  { rewrite E at 1. apply name_bytes_serialize; [lia | now rewrite <- E]. }
  assert (Hfield : trailing_field data es (Z.of_nat (length pre))
                   = Value (pack_field (it_flags it) (off0 + total pre))).
  { pose proof (trailing_field_serialize es Hes4 pre post it) as H0.
    cbv zeta in H0. rewrite <- E in H0. apply H0; assumption. }
  assert (Hat : name_at data es (Z.of_nat (length pre)) = it_name it).
  { unfold name_at. rewrite Hname, decode_name_field by assumption.
    cbn [val_or]. now rewrite rstrip_app_zeros. }
  split.
  { exists (it_name it ++
            repeat 0 (Z.to_nat (es - 4) - length (encode (it_name it)))).
    rewrite Hname, decode_name_field by assumption.
    split; [reflexivity|]. now rewrite rstrip_app_zeros, Hstrip. }
  split; [exact Hat|]. split; [exact Hfield|].
  unfold cur. rewrite Hfield. cbn [val_or]. split; assumption.
Qed.

Lemma make_entry_expected (it : Item) (off : Z) :
  make_entry (it_name it) off (plen it) (it_flags it) = expected_entry it off.
Proof.
  unfold make_entry, expected_entry, expected_kind.
  rewrite endswith_lower_iaf.
  now destruct ((it_flags it =? 1) || ends_iaf (it_name it)).
Qed.

Lemma entry_read_back (pre post : list Item) (it : Item) :
  items = pre ++ it :: post ->
  entry_at data count es (Z.of_nat (length pre))
  = expected_entry it (off0 + total pre).
Proof.
  intros E.
  destruct (offsets_in_range pre post it E) as (Hlo & Hsum & Hhi).
  destruct (record_read_back pre post it E) as (_ & Hat & _ & Hmask & Hshift).
  assert (Hcount : count = Z.of_nat (length pre) + 1 + Z.of_nat (length post)).
  { unfold count_of. rewrite E at 1. rewrite length_app. cbn [length]. lia. }
  assert (Hnext : mask (nxt data count es (Z.of_nat (length pre)))
                  = off0 + total pre + plen it).
  { destruct post as [|it' post'].
    - rewrite nxt_last by (cbn [length] in Hcount; lia).
      cbn [total fold_right] in Hsum.
      rewrite mask_small; [lia|]. unfold file_len in *. lia.
    - rewrite nxt_cur by (cbn [length] in Hcount; lia).
      assert (E' : items = (pre ++ [it]) ++ it' :: post')
        by (now rewrite <- app_assoc).
      destruct (record_read_back (pre ++ [it]) post' it' E')
        as (_ & _ & _ & Hmask' & _).
      rewrite length_app, Nat2Z.inj_add in Hmask'. cbn [length] in Hmask'.
      change (Z.of_nat 1) with 1 in Hmask'. rewrite Hmask', total_app.
      cbn [total fold_right]. lia. }
  unfold entry_at. rewrite Hat, Hmask, Hshift, Hnext.
  replace (off0 + total pre + plen it - (off0 + total pre)) with (plen it)
    by lia.
  apply make_entry_expected.
Qed.

Lemma directory_read_back :
  directory data count es = expected items off0.
Proof.
  apply nth_error_ext. intros k.
  destruct (nth_error items k) as [it|] eqn:Hk.
  - apply nth_error_split in Hk as (pre & post & E & Hpre).
    pose proof (entry_read_back pre post it E) as He.
    rewrite <- (Nat2Z.id k), directory_nth.
    + rewrite <- Hpre, He. rewrite E at 2.
      rewrite expected_app, nth_error_app2
        by (rewrite expected_length; lia).
      rewrite expected_length, Nat2Z.id, Hpre, Nat.sub_diag. reflexivity.
    + unfold count_of. rewrite E at 1. rewrite length_app. cbn [length]. lia.
  - apply nth_error_None in Hk.
    transitivity (@None Entry); [|symmetry]; apply nth_error_None.
    + rewrite directory_length. unfold count_of. lia.
    + now rewrite expected_length.
Qed.

End ReadBack.

Lemma count_read_back (es : Z) (items : list Item) :
  0 <= count_of items < 2 ^ 32 ->
  u32_at (serialize es items) 0 = Value (count_of items).
Proof.
  intros Hc. unfold u32_at, serialize.
  change (pack_u32 (count_of items) ++ ?r)
    with ([] ++ pack_u32 (count_of items) ++ r).
  rewrite slice_mid; [now apply unpack_pack | reflexivity | reflexivity].
Qed.

Lemma header_read_back (es : Z) (items : list Item) :
  es = 0x14 \/ es = 0x20 ->
  Forall (item_ok es) items ->
  file_len (serialize es items) < 2 ^ 30 ->
  0 < count_of items < 100000 ->
  0x24 <= file_len (serialize es items) ->
  (es = 0x20 ->
   forall offset1, u32_at (serialize es items) 0x14 = Value offset1 ->
                   mask offset1 <> 4 + count_of items * 0x14) ->
  header (serialize es items) (count_of items) es.
Proof.
  intros Hes Hok Hlen Hc Hmin Hno14.
  destruct (nth_error items 0) as [it|] eqn:H0.
  2:{ apply nth_error_None in H0. unfold count_of in Hc. lia. }
  apply nth_error_split in H0 as (pre & post & E & Hpre).
  destruct pre; [|discriminate]. clear Hpre.
  destruct (record_read_back es items Hes Hok Hlen [] post it E)
    as (_ & _ & Hfield & Hmask & _).
  cbn [length total fold_right] in Hfield, Hmask.
  change (Z.of_nat 0) with 0 in Hfield, Hmask.
  rewrite Z.add_0_r in Hfield, Hmask.
  unfold cur in Hmask. rewrite Hfield in Hmask. cbn [val_or] in Hmask.
  split; [apply count_read_back; lia|].
  split; [apply sane_count_range; lia|].
  destruct Hes as [-> | ->].
  - destruct (u32_at_long (serialize 0x14 items) 0x20) as [o2 Ho2];
      [lia | lia |].
    eexists _, o2, _. split; [exact Hfield|]. split; [exact Ho2|].
    unfold select_layout. now rewrite Hmask, Z.eqb_refl.
  - destruct (u32_at_long (serialize 0x20 items) 0x14) as [o1 Ho1];
      [lia | lia |].
    eexists o1, _, _. split; [exact Ho1|]. split; [exact Hfield|].
    unfold select_layout.
    destruct (Z.eqb_spec (4 + count_of items * 0x14) (mask o1)) as [E1|_].
    + exfalso. apply (Hno14 eq_refl o1 Ho1). lia.
    + now rewrite Hmask, Z.eqb_refl.
Qed.


End SynthFacts.

Import Synth.

(** C1 (amended).  Round-trip recovery.  A synthetic archive serialized
    with record size 0x14 or 0x20, a count between 1 and 99999, valid
    names, flags between 0 and 3, payloads contiguous after the index, a
    total length of at least 0x24 and less than [2 ^ 30] bytes, and, for
    record size 0x20, bytes at 0x14 that do not satisfy the 0x14 layout
    equation, is opened by [try_open]; the directory has as many entries as
    were given, and entry [i] has the name of item [i], the offset of its
    payload, the length of its payload as size, and the kind its flags and
    name call for. *)
Theorem round_trip (fn : str) (es : Z) (items : list Item) :
  es = 0x14 \/ es = 0x20 ->
  0 < count_of items < 100000 ->
  Forall (item_ok es) items ->
  0x24 <= file_len (serialize es items) < 2 ^ 30 ->
  (es = 0x20 ->
   forall offset1, u32_at (serialize es items) 0x14 = Value offset1 ->
                   mask offset1 <> 4 + count_of items * 0x14) ->
  exists arc,
    try_open fn (serialize es items) = Value arc /\
    filename arc = fn /\
    entries arc = expected items (4 + count_of items * es) /\
    length (entries arc) = length items /\
    forall pre it post,
      items = pre ++ it :: post ->
      exists e,
        nth_error (entries arc) (length pre) = Some e /\
        name e = it_name it /\
        offset e = 4 + count_of items * es + total pre /\
        size e = plen it /\
        kind_of e = expected_kind it.
Proof.
  intros Hes Hc Hok Hlen Hno14.
  exists (mkArcFile fn (expected items (4 + count_of items * es))).
  split; [|split; [reflexivity|split; [reflexivity|split]]].
  - apply try_open_Value_iff. exists (count_of items), es.
    split; [apply SynthFacts.header_read_back; tauto || lia || assumption|].
    assert (Hrec : forall i, 0 <= i < count_of items ->
              exists pre it post, items = pre ++ it :: post /\
                                  i = Z.of_nat (length pre)).
    { intros i Hi. destruct (nth_error items (Z.to_nat i)) as [it|] eqn:Hn.
      - apply nth_error_split in Hn as (pre & post & E & Hpre).
        exists pre, it, post. split; [assumption | lia].
      - apply nth_error_None in Hn. unfold count_of in Hi. lia. }
    split; [|split].
    + intros i Hi. destruct (Hrec i Hi) as (pre & it & post & E & ->).
      eapply SynthFacts.record_read_back; try eassumption. lia.
    + intros i Hi. destruct (Hrec i Hi) as (pre & it & post & E & ->).
      eexists. eapply SynthFacts.record_read_back; try eassumption. lia.
    + f_equal. symmetry. apply SynthFacts.directory_read_back; tauto || lia.
  - cbn [entries]. apply SynthFacts.expected_length.
  - intros pre it post E. cbn [entries].
    exists (expected_entry it (4 + count_of items * es + total pre)).
    split.
    + rewrite E at 1. rewrite SynthFacts.expected_app, nth_error_app2
        by (rewrite SynthFacts.expected_length; lia).
      now rewrite SynthFacts.expected_length, Nat.sub_diag.
    + unfold expected_entry. destruct (expected_kind it); cbn; auto.
Qed.

Ltac item_ok_tac :=
  repeat match goal with
  | |- Forall (item_ok _) _ => constructor
  | |- item_ok _ _ => split
  | |- name_fits _ _ => split; [|split; [|split]]
  | |- Forall scalar ?l =>
      let l' := eval vm_compute in l in
      change (Forall scalar l'); repeat constructor
  | |- scalar _ => unfold scalar; lia
  | |- _ = _ => vm_compute; reflexivity
  | |- _ <= _ <= _ => vm_compute; split; discriminate
  | |- _ <= _ => vm_compute; discriminate
  end.

Lemma round_trip_witness :
  (0x20 = 0x14 \/ 0x20 = 0x20) /\
  0 < count_of three_items < 100000 /\
  Forall (item_ok 0x20) three_items /\
  0x24 <= file_len (serialize 0x20 three_items) < 2 ^ 30 /\
  (forall offset1,
     u32_at (serialize 0x20 three_items) 0x14 = Value offset1 ->
     mask offset1 <> 4 + count_of three_items * 0x14) /\
  exists arc,
    try_open archive_name (serialize 0x20 three_items) = Value arc /\
    entries arc = expected three_items (4 + count_of three_items * 0x20).
Proof.
  assert (H1 : 0x20 = 0x14 \/ 0x20 = 0x20) by (right; reflexivity).
  assert (H2 : 0 < count_of three_items < 100000) by (vm_compute; split; reflexivity).
  assert (H3 : Forall (item_ok 0x20) three_items) by (unfold three_items; item_ok_tac).
  assert (H4 : 0x24 <= file_len (serialize 0x20 three_items) < 2 ^ 30).
  { change (file_len (serialize 0x20 three_items)) with 122. lia. }
  assert (H5 : forall offset1,
             u32_at (serialize 0x20 three_items) 0x14 = Value offset1 ->
             mask offset1 <> 4 + count_of three_items * 0x14).
  { intros o1 Ho1. vm_compute in Ho1. injection Ho1 as <-.
    vm_compute. discriminate. }
  split; [exact H1|]. split; [exact H2|]. split; [exact H3|].
  split; [exact H4|]. split; [exact H5|].
  destruct (round_trip archive_name 0x20 three_items H1 H2 H3 H4 (fun _ => H5))
    as (arc & Hopen & _ & Hentries & _).
  exists arc. split; assumption.
Defined.

(** C1, as stated, fails in two ways.  A valid one-entry archive of the
    0x14 layout with an empty payload has 0x18 bytes, and [try_open]
    raises [struct.error] at the probe at 0x20.  And a valid one-entry
    archive of the 0x20 layout whose name holds the bytes of [0x40000018] at
    file offset 0x14 is read in the 0x14 layout: the directory has another
    name, offset, size and kind than the archive was built from. *)
Lemma round_trip_counterexample :
  (Forall (item_ok 0x14) tiny_items /\
   0 < count_of tiny_items < 100000 /\
   try_open archive_name (serialize 0x14 tiny_items) = Raise struct_error) /\
  (Forall (item_ok 0x20) spurious_items /\
   0 < count_of spurious_items < 100000 /\
   try_open archive_name (serialize 0x20 spurious_items)
   = Value (mkArcFile archive_name
              [Entry_ (repeat 0x61 16) (lit "image") 0x18 0x18]) /\
   expected spurious_items (4 + count_of spurious_items * 0x20)
   = [CgfEntry (repeat 0x61 16 ++ [0x18; 0; 0; 0x40]) (lit "image")
               0x24 12 0]).
Proof.
  split; (split; [|split; [vm_compute; split; reflexivity|]]).
  - unfold tiny_items. item_ok_tac.
  - vm_compute. reflexivity.
  - unfold spurious_items. item_ok_tac.
  - split; vm_compute; reflexivity.
Qed.

(* ================================================================== *)
(** * More on the opener *)
(* ================================================================== *)

Import Cli.

Lemma rstrip_idem (c : Z) (s : str) : rstrip c (rstrip c s) = rstrip c s.
Proof.
  induction s as [|x t IH]; [reflexivity|].
  cbn [rstrip]. destruct ((x =? c) && is_nil (rstrip c t)) eqn:E;
    [reflexivity|].
  cbn [rstrip]. rewrite IH, E. reflexivity.
Qed.

(** Record [i] is complete exactly when the file reaches its end. *)
Lemma field_ok_iff (data : bytes) (es i : Z) :
  0 <= i -> 4 <= es ->
  (field_ok data es i <-> 4 + (i + 1) * es <= file_len data).
Proof.
  intros Hi Hes. unfold field_ok, trailing_field. split.
  - intros [v Hv]. unfold u32_at in Hv.
    apply unpack_u32_Value in Hv as [Hl _].
    rewrite slice_length in Hl. unfold file_len. nia.
  - intros H. apply u32_at_long; nia.
Qed.

Lemma fields_ok_iff (data : bytes) (count es : Z) :
  0 < count -> 4 <= es ->
  ((forall i, 0 <= i < count -> field_ok data es i)
   <-> 4 + count * es <= file_len data).
Proof.
  intros Hc Hes. split.
  - intros H. specialize (H (count - 1) ltac:(lia)).
    apply field_ok_iff in H; [|lia|lia].
    replace (count - 1 + 1) with count in H by lia. exact H.
  - intros H i Hi. apply field_ok_iff; [lia | lia | nia].
Qed.

(** X1.  The acceptance criterion.  [try_open] returns a directory exactly
    when the header passes its checks (sane count, both probes read, a
    layout selected), the file holds the whole index, and every record
    name decodes to a valid entry name; the directory is then the list of
    the entries built from the [count] records, in index order. *)
Theorem acceptance_criterion (fn : str) (data : bytes) (arc : ArcFile) :
  try_open fn data = Value arc <->
  exists count es,
    header data count es /\
    4 + count * es <= file_len data /\
    (forall i, 0 <= i < count -> name_ok data es i) /\
    arc = mkArcFile fn (directory data count es).
Proof.
  rewrite try_open_Value_iff. split.
  - intros (count & es & Hh & Hn & Hf & Harc). exists count, es.
    pose proof (header_entry_size _ _ _ Hh) as Hes.
    assert (0 < count) by (apply sane_count_range, Hh).
    split; [assumption|]. split; [|split; assumption].
    apply fields_ok_iff; [lia | lia | assumption].
  - intros (count & es & Hh & Hlen & Hn & Harc). exists count, es.
    pose proof (header_entry_size _ _ _ Hh) as Hes.
    assert (0 < count) by (apply sane_count_range, Hh).
    split; [assumption|]. split; [assumption|]. split; [|assumption].
    apply fields_ok_iff; [lia | lia | assumption].
Qed.

Lemma header_file_len (data : bytes) (count es : Z) :
  header data count es -> 0x24 <= file_len data.
Proof.
  intros (_ & _ & o1 & o2 & first & _ & Ho2 & _).
  unfold u32_at in Ho2. apply unpack_u32_Value in Ho2 as [Hl _].
  rewrite slice_length in Hl. unfold file_len. lia.
Qed.

(** X2.  An accepted file holds its whole index.  When [try_open] returns a
    directory, the count read at offset 0 is the number of entries, it lies
    between 1 and 99999, and the file has at least 0x24 bytes and at least
    the [4 + count * record_size] bytes of the count and the index, for the
    record size of the layout it selected.  A file whose header passes but
    which ends inside the index of the selected layout is never opened:
    [try_open] returns [None] or raises. *)
Theorem accepted_file_holds_index (fn : str) (data : bytes) :
  (forall arc,
     try_open fn data = Value arc ->
     exists count es,
       header data count es /\
       length (entries arc) = Z.to_nat count /\
       0 < count < 100000 /\
       0x24 <= file_len data /\
       4 + count * es <= file_len data) /\
  (forall count es,
     header data count es ->
     file_len data < 4 + count * es ->
     try_open fn data = ReturnNone \/ exists e, try_open fn data = Raise e).
Proof.
  assert (Hacc : forall arc,
     try_open fn data = Value arc ->
     exists count es,
       header data count es /\
       length (entries arc) = Z.to_nat count /\
       0 < count < 100000 /\
       0x24 <= file_len data /\
       4 + count * es <= file_len data).
  { intros arc H. apply try_open_directory in H
      as (count & es & Hh & Hc & Hes & Hrec & Hd).
    exists count, es.
    split; [exact Hh|].
    split; [rewrite Hd; apply directory_length|]. split; [exact Hc|].
    split; [eapply header_file_len; eassumption|].
    apply fields_ok_iff; [lia | lia |]. intros i Hi. now apply Hrec. }
  split; [exact Hacc|].
  intros count es Hh Hcut.
  destruct (try_open fn data) as [arc| |e] eqn:Hopen;
    [exfalso | now left | right; now exists e].
  destruct (Hacc arc eq_refl) as (count' & es' & Hh' & _ & _ & _ & Hfit).
  destruct (header_unique _ _ _ _ _ Hh Hh') as [-> ->]. lia.
Qed.

(** X3.  What every entry of a returned directory satisfies: the name is
    accepted by [is_valid_entry_name] and has no trailing null character;
    the type is [image]; the offset lies in [0, 2^30) and the entry does
    not end before the start of the file; a [CgfEntry] has flags 0, 2 or
    3, never 1, and a name that does not end with [.iaf] in any case. *)
Theorem entry_invariants (fn : str) (data : bytes) (arc : ArcFile) :
  try_open fn data = Value arc ->
  Forall (fun e =>
            is_valid_entry_name (name e) = true /\
            rstrip 0 (name e) = name e /\
            type e = lit "image" /\
            0 <= offset e < 2 ^ 30 /\
            0 <= offset e + size e /\
            match flags e with
            | None => True
            | Some f => (f = 0 \/ f = 2 \/ f = 3) /\ ends_iaf (name e) = false
            end)
         (entries arc).
Proof.
  intros H. apply try_open_directory in H
    as (count & es & Hh & Hc & Hes & Hrec & Hd).
  rewrite Hd. unfold directory. apply Forall_map, Forall_forall.
  intros i Hi. apply zseq_In in Hi.
  destruct (Hrec i ltac:(lia)) as [(nm & Hdec & Hv) [v Hfield]].
  assert (Hname : name_at data es i = rstrip 0 nm)
    by (unfold name_at; now rewrite Hdec).
  assert (Hcur : cur data es i = v) by (unfold cur; now rewrite Hfield).
  apply unpack_u32_Value in Hfield as [_ Hrange].
  destruct (shiftr30_u32 v Hrange) as [_ Hfl].
  assert (Hnext : 0 <= nxt data count es i).
  { unfold nxt. destruct (Z.eqb_spec (i + 1) count) as [E|N].
    - unfold file_len. lia.
    - destruct (Hrec (i + 1) ltac:(lia)) as [_ [w Hw]].
      unfold cur. rewrite Hw. cbn [val_or].
      apply unpack_u32_Value in Hw. lia. }
  pose proof (mask_bounds _ Hnext) as Hmn.
  assert (Hoff : 0 <= mask v < 2 ^ 30).
  { rewrite mask_u32 by assumption. apply Z.mod_pos_bound. lia. }
  unfold entry_at. rewrite Hname, Hcur.
  set (sz := mask (nxt data count es i) - mask v).
  destruct (make_entry_attrs (rstrip 0 nm) (mask v) sz (Z.shiftr v 30))
    as (En & Et & Eo & Es & _).
  rewrite En, Et, Eo, Es.
  split; [assumption|]. split; [apply rstrip_idem|].
  split; [reflexivity|]. split; [assumption|]. split; [unfold sz; lia|].
  unfold make_entry. rewrite endswith_lower_iaf.
  destruct (Z.eqb_spec (Z.shiftr v 30) 1) as [E1|N1]; cbn [orb flags];
    [exact I|].
  destruct (ends_iaf (rstrip 0 nm)) eqn:Ei; cbn [flags]; [exact I|].
  split; [lia | reflexivity].
Qed.

(** ** The opener does not read the payloads *)

Lemma slice_app_l {A} (h t : list A) (a b : Z) :
  0 <= a -> b <= Z.of_nat (length h) ->
  slice (h ++ t) a b = slice h a b.
Proof.
  intros Ha Hb. unfold slice.
  destruct (Z_le_gt_dec a b) as [Hab|Hab].
  - rewrite skipn_app, firstn_app, length_skipn.
    replace (Z.to_nat a - length h)%nat with 0%nat by lia.
    replace (Z.to_nat (b - a) - (length h - Z.to_nat a))%nat with 0%nat by lia.
    cbn [skipn firstn]. apply app_nil_r.
  - replace (Z.to_nat (b - a)) with 0%nat by lia. reflexivity.
Qed.

Lemma u32_at_app (h t : bytes) (p : Z) :
  0 <= p -> p + 4 <= file_len h -> u32_at (h ++ t) p = u32_at h p.
Proof.
  intros Hp Hl. unfold u32_at. now rewrite slice_app_l by assumption.
Qed.

Lemma index_block_app (h t : bytes) (es count : Z) :
  0 <= es * count -> 4 + es * count <= file_len h ->
  index_block (h ++ t) es count = index_block h es count.
Proof.
  intros Hn Hl. unfold index_block, file_len in *.
  rewrite skipn_app, firstn_app, length_skipn.
  replace (Z.to_nat 4 - length h)%nat with 0%nat by lia.
  replace (Z.to_nat (es * count) - (length h - Z.to_nat 4))%nat
    with 0%nat by lia.
  cbn [skipn firstn]. apply app_nil_r.
Qed.

Lemma loop_body_same (count es : Z) (idx : bytes) (i : Z) (a b : LoopState) :
  same_state a b ->
  same_outcome (loop_body count es idx i a) (loop_body count es idx i b).
Proof.
  intros (Hno & Hd & Hl). unfold loop_body.
  destruct (decode _) as [nm| |e]; cbn [bind same_outcome]; auto.
  destruct (is_valid_entry_name (rstrip 0 nm)); cbn [negb same_outcome]; auto.
  destruct (i + 1 =? count); cbn [bind fst snd].
  - unfold same_outcome, same_state, seek_end, tell.
    cbn [st_next_offset st_dir st_file content pos].
    rewrite Hno, Hd, Hl. auto.
  - destruct (unpack_u32 _) as [v| |e]; cbn [bind fst snd same_outcome]; auto.
    unfold same_state. cbn [st_next_offset st_dir st_file].
    rewrite Hno, Hd. auto.
Qed.

Lemma for_range_same (count es : Z) (idx : bytes) (n : nat) :
  forall (i : Z) (a b : LoopState),
  same_state a b ->
  same_outcome (for_range n i (loop_body count es idx) a)
               (for_range n i (loop_body count es idx) b).
Proof.
  induction n as [|n IH]; intros i a b Hab; [exact Hab|].
  cbn [for_range].
  pose proof (loop_body_same count es idx i a b Hab) as Hb.
  destruct (loop_body count es idx i a) as [a'| |e],
           (loop_body count es idx i b) as [b'| |e'];
    cbn [bind same_outcome] in *; try contradiction; auto.
Qed.

(** X4.  The opener does not read the payloads.  Beyond a prefix of the
    file that has at least 0x24 bytes and holds the whole index of the
    layout it selects, the bytes of the file matter to [try_open] only by
    their number: two files with that prefix and the same length give the
    same result, directory, [None] or exception. *)
Theorem payload_independence (fn : str) (h t1 t2 : bytes) :
  0x24 <= file_len h ->
  (forall count es, header h count es -> 4 + count * es <= file_len h) ->
  length t1 = length t2 ->
  try_open fn (h ++ t1) = try_open fn (h ++ t2).
Proof.
  intros Hmin Hidx Hlen. rewrite !try_open_unfold.
  rewrite !(u32_at_app h) by lia.
  destruct (u32_at h 0) as [count| |e] eqn:Hc; cbn [bind]; try reflexivity.
  destruct (is_sane_count count) eqn:Hsane; cbn [negb]; [|reflexivity].
  destruct (u32_at h 0x14) as [o1| |e] eqn:H1; cbn [bind]; try reflexivity.
  destruct (u32_at h 0x20) as [o2| |e] eqn:H2; cbn [bind]; try reflexivity.
  destruct (select_layout count o1 o2) as [[es first]|] eqn:Hs;
    [|reflexivity].
  assert (Hh : header h count es).
  { split; [assumption|]. split; [assumption|]. now exists o1, o2, first. }
  pose proof (Hidx count es Hh) as Hfit.
  pose proof (header_entry_size _ _ _ Hh) as Hes.
  apply sane_count_range in Hsane.
  unfold run_loop. rewrite !(index_block_app h) by nia.
  match goal with
  | |- bind (for_range ?n ?i ?f ?a) _ = bind (for_range _ _ _ ?b) _ =>
      pose proof (for_range_same count es (index_block h es count) n i a b)
        as Hrun
  end.
  match type of Hrun with
  | _ -> same_outcome ?r ?r' => destruct r as [a'| |e], r' as [b'| |e']
  end; cbn [bind same_outcome] in *;
    try (exfalso; apply Hrun; unfold same_state; cbn;
         rewrite ?length_app; repeat split; congruence).
  - destruct Hrun as (_ & Hd & _); [|now rewrite Hd].
    unfold same_state. cbn. rewrite !length_app. repeat split; congruence.
  - reflexivity.
  - rewrite Hrun; [reflexivity|].
    unfold same_state. cbn. rewrite !length_app. repeat split; congruence.
Qed.

(* ================================================================== *)
(** * More on extraction *)
(* ================================================================== *)

Lemma seek_value_error (f : File) (p : Z) :
  p < - 2 ^ 63 \/ 2 ^ 63 <= p -> seek f p = Raise ValueError.
Proof.
  intros Hp. unfold seek.
  destruct (Z.ltb_spec p (- 2 ^ 63)); [reflexivity|].
  destruct (Z.leb_spec (2 ^ 63) p); [reflexivity | lia].
Qed.

Lemma seek_os_error (f : File) (p : Z) :
  - 2 ^ 63 <= p < 0 -> seek f p = Raise OSError.
Proof.
  intros Hp. unfold seek.
  destruct (Z.ltb_spec p (- 2 ^ 63)); [lia|].
  destruct (Z.leb_spec (2 ^ 63) p); [lia|]. cbn [orb].
  destruct (Z.ltb_spec p 0); [reflexivity | lia].
Qed.

Lemma read_overflow (f : File) (n : Z) :
  n < - 2 ^ 63 \/ 2 ^ 63 <= n -> read f n = Raise OverflowError.
Proof.
  intros Hn. unfold read.
  destruct (Z.ltb_spec n (- 2 ^ 63)); [reflexivity|].
  destruct (Z.leb_spec (2 ^ 63) n); [reflexivity | lia].
Qed.

Lemma read_value_error (f : File) (n : Z) :
  - 2 ^ 63 <= n < -1 -> read f n = Raise ValueError.
Proof.
  intros Hn. unfold read.
  destruct (Z.ltb_spec n (- 2 ^ 63)); [lia|].
  destruct (Z.leb_spec (2 ^ 63) n); [lia|]. cbn [orb].
  destruct (Z.ltb_spec n (-1)); [reflexivity | lia].
Qed.

(** [extract_file] when [seek] raises. *)
Lemma extract_file_seek_fails (data : bytes) (e : Entry) (x : exn) :
  seek (open_rb data) (offset e) = Raise x ->
  extract_file data e = ([x00; x00; x00; x00], Raise x).
Proof. intros H. unfold extract_file. rewrite H. reflexivity. Qed.

(** [extract_file] when [read] raises. *)
Lemma extract_file_read_fails (data : bytes) (e : Entry) (x : exn) :
  0 <= offset e <= 2 ^ 44 - 4096 ->
  read (mkFile data (offset e)) (size e) = Raise x ->
  extract_file data e = ([x00; x00; x00; x00], Raise x).
Proof.
  intros Ho H. unfold extract_file, open_rb.
  rewrite seek_ok by assumption. cbn [bind content]. rewrite H. reflexivity.
Qed.

Lemma content_of_eq (data : bytes) (e : Entry) :
  -1 <= size e <= 2 ^ 32 ->
  content_of data e =
  if size e =? -1 then skipn (Z.to_nat (offset e)) data
  else firstn (Z.to_nat (size e)) (skipn (Z.to_nat (offset e)) data).
Proof.
  intros Hs. unfold content_of. rewrite read_ok by assumption.
  cbn [pos content]. destruct (size e =? -1); reflexivity.
Qed.

(** [extract_file] when [seek] and [read] succeed. *)
Lemma extract_file_ok (data : bytes) (e : Entry) :
  0 <= offset e <= 2 ^ 44 - 4096 ->
  -1 <= size e <= 2 ^ 32 ->
  extract_file data e = (transformed (content_of data e), Value tt).
Proof.
  intros Ho Hs. unfold extract_file, content_of, open_rb, transformed.
  rewrite seek_ok by assumption. cbn [bind content].
  rewrite read_ok by assumption. reflexivity.
Qed.

Lemma content_of_length (data : bytes) (e : Entry) :
  0 <= offset e ->
  -1 <= size e <= 2 ^ 32 ->
  Z.of_nat (length (content_of data e)) =
  if size e =? -1 then Z.max 0 (file_len data - offset e)
  else Z.min (size e) (Z.max 0 (file_len data - offset e)).
Proof.
  intros Ho Hs. rewrite content_of_eq by assumption. unfold file_len.
  destruct (Z.eqb_spec (size e) (-1)).
  - rewrite length_skipn. lia.
  - rewrite length_firstn, length_skipn. lia.
Qed.

Lemma transformed_length (C : bytes) :
  Z.of_nat (length (transformed C)) = 4 + Z.max 3 (Z.of_nat (length C)).
Proof.
  unfold transformed. rewrite !length_app, length_skipn. cbn [length]. lia.
Qed.

(** X5.  The cases of [extract_file].  An offset outside the signed 64-bit
    range makes [seek] raise [ValueError], and a negative offset inside it
    [OSError].  For an offset in [0, 2^30), a size outside the signed
    64-bit range makes [read] raise [OverflowError], and a size below [-1]
    inside it [ValueError].  In each of these cases the destination is
    left with the 4 zero bytes already written.  For an offset in
    [0, 2^30) and a size in [-1, 2^30) the call succeeds: it reads what the
    file has from the offset on, all of it for the size [-1] and at most
    [size] bytes otherwise, and writes 7 zero bytes and the content from
    its fourth byte on, so [4 + max 3 N] bytes for [N] bytes read; an
    offset at or past the end of the file gives 7 zero bytes. *)
Theorem extract_file_cases (data : bytes) (e : Entry) :
  (offset e < - 2 ^ 63 \/ 2 ^ 63 <= offset e ->
   extract_file data e = ([x00; x00; x00; x00], Raise ValueError)) /\
  (- 2 ^ 63 <= offset e < 0 ->
   extract_file data e = ([x00; x00; x00; x00], Raise OSError)) /\
  (0 <= offset e < 2 ^ 30 ->
   size e < - 2 ^ 63 \/ 2 ^ 63 <= size e ->
   extract_file data e = ([x00; x00; x00; x00], Raise OverflowError)) /\
  (0 <= offset e < 2 ^ 30 ->
   - 2 ^ 63 <= size e < -1 ->
   extract_file data e = ([x00; x00; x00; x00], Raise ValueError)) /\
  (0 <= offset e < 2 ^ 30 ->
   -1 <= size e < 2 ^ 30 ->
   extract_file data e
   = (repeat x00 7 ++ skipn 3 (content_of data e), Value tt) /\
   content_of data e
   = (if size e =? -1 then skipn (Z.to_nat (offset e)) data
      else firstn (Z.to_nat (size e)) (skipn (Z.to_nat (offset e)) data)) /\
   Z.of_nat (length (content_of data e))
   = (if size e =? -1 then Z.max 0 (file_len data - offset e)
      else Z.min (size e) (Z.max 0 (file_len data - offset e))) /\
   Z.of_nat (length (fst (extract_file data e)))
   = 4 + Z.max 3 (Z.of_nat (length (content_of data e)))) /\
  (file_len data <= offset e < 2 ^ 30 ->
   -1 <= size e < 2 ^ 30 ->
   extract_file data e = (repeat x00 7, Value tt)).
Proof.
  split; [|split; [|split; [|split; [|split]]]].
  - intros H. apply extract_file_seek_fails. now apply seek_value_error.
  - intros H. apply extract_file_seek_fails. now apply seek_os_error.
  - intros Ho Hs. apply extract_file_read_fails; [lia|].
    now apply read_overflow.
  - intros Ho Hs. apply extract_file_read_fails; [lia|].
    now apply read_value_error.
  - intros Ho Hs.
    assert (E : extract_file data e
                = (transformed (content_of data e), Value tt))
      by (apply extract_file_ok; lia).
    split; [exact E|]. split; [apply content_of_eq; lia|].
    split; [apply content_of_length; lia|].
    rewrite E. cbn [fst]. apply transformed_length.
  - intros Ho Hs.
    assert (Hoff : 0 <= offset e) by (unfold file_len in Ho; lia).
    rewrite extract_file_ok by lia.
    assert (Hnil : content_of data e = []).
    { apply length_zero_iff_nil.
      pose proof (content_of_length data e Hoff ltac:(lia)) as Hl.
      destruct (size e =? -1); lia. }
    unfold transformed. now rewrite Hnil.
Qed.

(** ** Extracting the entries of a directory *)

(** In a file of less than 4 GiB every entry of a directory starts and
    ends below [2^30]. *)
Lemma directory_entry_range (fn : str) (data : bytes) (arc : ArcFile) :
  try_open fn data = Value arc ->
  file_len data < 2 ^ 32 ->
  Forall (fun e => 0 <= offset e < 2 ^ 30 /\
                   0 <= offset e + size e < 2 ^ 30)
         (entries arc).
Proof.
  intros H Hlen. apply try_open_directory in H
    as (count & es & Hh & Hc & Hes & Hrec & Hd).
  rewrite Hd. unfold directory. apply Forall_map, Forall_forall.
  intros i Hi. apply zseq_In in Hi.
  rewrite entry_at_end, entry_at_offset.
  assert (Hu : forall j, 0 <= j < count -> 0 <= cur data es j < 2 ^ 32).
  { intros j Hj. destruct (Hrec j Hj) as [_ [w Hw]].
    unfold cur. rewrite Hw. cbn [val_or].
    apply unpack_u32_Value in Hw. lia. }
  assert (Hnext : 0 <= nxt data count es i < 2 ^ 32).
  { unfold nxt. destruct (Z.eqb_spec (i + 1) count) as [E|N].
    - unfold file_len in *. lia.
    - apply Hu. lia. }
  rewrite !mask_u32 by (assumption || apply Hu; lia).
  split; apply Z.mod_pos_bound; lia.
Qed.

(** How [extract_file] ends on the entries of a directory. *)
Lemma directory_extract (fn : str) (data : bytes) (arc : ArcFile) :
  try_open fn data = Value arc ->
  file_len data < 2 ^ 32 ->
  Forall (fun e =>
            (size e < -1 ->
             extract_file data e
             = ([x00; x00; x00; x00], Raise ValueError)) /\
            (-1 <= size e ->
             extract_file data e
             = (transformed (content_of data e), Value tt)))
         (entries arc).
Proof.
  intros H Hlen.
  pose proof (directory_entry_range fn data arc H Hlen) as Hr.
  eapply Forall_impl; [|exact Hr]. cbv beta. intros e [Ho He]. split.
  - intros Hs. apply extract_file_read_fails; [lia|].
    apply read_value_error. lia.
  - intros Hs. apply extract_file_ok; lia.
Qed.

Lemma end_of_cons (s s' : Z) (a : Entry) (l : list Entry) :
  l <> [] -> end_of s (a :: l) = end_of s' l.
Proof.
  intros Hl. unfold end_of. cbn [rev].
  destruct (rev l) as [|x r] eqn:E; [|reflexivity].
  apply (f_equal (@rev Entry)) in E. rewrite rev_involutive in E.
  now elim Hl.
Qed.

Lemma chained_within (L : Z) (d : list Entry) :
  chained d ->
  Forall (fun e => 0 <= size e) d ->
  d <> [] -> end_of 0 d <= L ->
  Forall (fun e => offset e + size e <= L) d.
Proof.
  induction d as [|a d IH]; intros Hch Hpos Hne Hend; [constructor|].
  inversion Hpos as [|? ? Ha Hd]; subst.
  destruct d as [|b d].
  - constructor; [|constructor]. exact Hend.
  - destruct Hch as [Hab Hch].
    rewrite (end_of_cons 0 0) in Hend by discriminate.
    specialize (IH Hch Hd ltac:(discriminate) Hend).
    constructor; [|exact IH].
    inversion IH as [|? ? Hb _]; subst.
    inversion Hd as [|? ? Hsb _]; subst. lia.
Qed.

(** X6.  Extracting the entries of an opened archive of less than 4 GiB.
    For an entry of the directory [try_open] returns, [extract_file] on
    the same file raises [ValueError] when the entry's size is below [-1],
    leaving the 4 zero bytes already written, and succeeds otherwise.
    When no size of the directory is negative, every entry's range lies
    within the file, so exactly [size] bytes are read, and the written
    file has [4 + max 3 size] bytes. *)
Theorem directory_extraction (fn : str) (data : bytes) (arc : ArcFile)
        (e : Entry) :
  try_open fn data = Value arc ->
  file_len data < 2 ^ 32 ->
  In e (entries arc) ->
  (size e < -1 ->
   extract_file data e = ([x00; x00; x00; x00], Raise ValueError)) /\
  (-1 <= size e ->
   extract_file data e = (transformed (content_of data e), Value tt)) /\
  (Forall (fun x => 0 <= size x) (entries arc) ->
   offset e + size e <= file_len data /\
   Z.of_nat (length (content_of data e)) = size e /\
   Z.of_nat (length (fst (extract_file data e))) = 4 + Z.max 3 (size e)).
Proof.
  intros Hopen Hlen Hin.
  pose proof (directory_extract fn data arc Hopen Hlen) as Hx.
  pose proof (directory_entry_range fn data arc Hopen Hlen) as Hr.
  rewrite Forall_forall in Hx, Hr.
  destruct (Hx e Hin) as [Hbad Hgood]. destruct (Hr e Hin) as [Ho He].
  split; [exact Hbad|]. split; [exact Hgood|]. intros Hpos.
  apply try_open_directory in Hopen
    as (count & es & Hh & Hc & Hes & Hrec & Hd).
  assert (Hin' : Forall (fun x => offset x + size x <= file_len data)
                        (entries arc)).
  { apply chained_within; try assumption.
    - rewrite Hd. unfold directory. apply chained_run. lia.
    - intros Hnil. apply (f_equal (@length Entry)) in Hnil.
      rewrite Hd, directory_length in Hnil. cbn in Hnil. lia.
    - rewrite Hd. unfold directory. rewrite end_of_run by lia.
      rewrite nxt_last by lia. apply mask_bounds. unfold file_len. lia. }
  rewrite Forall_forall in Hin', Hpos.
  specialize (Hin' e Hin). specialize (Hpos e Hin).
  assert (Hlen' : Z.of_nat (length (content_of data e)) = size e).
  { rewrite content_of_length by lia.
    destruct (Z.eqb_spec (size e) (-1)); lia. }
  split; [exact Hin'|]. split; [exact Hlen'|].
  rewrite Hgood by lia. cbn [fst].
  rewrite transformed_length, Hlen'. reflexivity.
Qed.

(** ** Extracting from a synthetic archive *)

Lemma serialize_opens (fn : str) (es : Z) (items : list Item) :
  es = 0x14 \/ es = 0x20 ->
  0 < count_of items < 100000 ->
  Forall (item_ok es) items ->
  0x24 <= file_len (serialize es items) < 2 ^ 30 ->
  (es = 0x20 ->
   forall offset1, u32_at (serialize es items) 0x14 = Value offset1 ->
                   mask offset1 <> 4 + count_of items * 0x14) ->
  try_open fn (serialize es items)
  = Value (mkArcFile fn (expected items (4 + count_of items * es))).
Proof.
  intros Hes Hc Hok Hlen Hno14.
  apply try_open_Value_iff. exists (count_of items), es.
  split; [apply SynthFacts.header_read_back; tauto || lia || assumption|].
  assert (Hrec : forall i, 0 <= i < count_of items ->
            exists pre it post, items = pre ++ it :: post /\
                                i = Z.of_nat (length pre)).
  { intros i Hi. destruct (nth_error items (Z.to_nat i)) as [it|] eqn:Hn.
    - apply nth_error_split in Hn as (pre & post & E & Hpre).
      exists pre, it, post. split; [assumption | lia].
    - apply nth_error_None in Hn. unfold count_of in Hi. lia. }
  split; [|split].
  - intros i Hi. destruct (Hrec i Hi) as (pre & it & post & E & ->).
    eapply SynthFacts.record_read_back; try eassumption. lia.
  - intros i Hi. destruct (Hrec i Hi) as (pre & it & post & E & ->).
    eexists. eapply SynthFacts.record_read_back; try eassumption. lia.
  - f_equal. symmetry. apply SynthFacts.directory_read_back; tauto || lia.
Qed.

Lemma payloads_app (pre post : list Item) :
  payloads (pre ++ post) = payloads pre ++ payloads post.
Proof. unfold payloads. apply flat_map_app. Qed.

(** The payload of an item lies at the offset the builder packed. *)
Lemma payload_at (es : Z) (pre post : list Item) (it : Item) (e : Entry) :
  4 <= es ->
  Forall (item_ok es) (pre ++ it :: post) ->
  offset e = 4 + count_of (pre ++ it :: post) * es + total pre ->
  size e = plen it ->
  plen it <= 2 ^ 32 ->
  content_of (serialize es (pre ++ it :: post)) e = it_payload it.
Proof.
  intros Hes Hok Hoff Hsize Hsmall.
  rewrite content_of_eq by (unfold plen in *; lia).
  rewrite Hsize, Hoff.
  destruct (Z.eqb_spec (plen it) (-1)) as [Hneg|_];
    [unfold plen in Hneg; lia|].
  unfold serialize. rewrite payloads_app. cbn [payloads flat_map].
  fold (payloads post).
  set (items := pre ++ it :: post) in *.
  rewrite (app_assoc (index es items _)), (app_assoc (pack_u32 _)).
  set (P := pack_u32 (count_of items)
            ++ index es items (4 + count_of items * es) ++ payloads pre).
  assert (HP : Z.of_nat (length P) = 4 + count_of items * es + total pre).
  { unfold P. rewrite !length_app, !Nat2Z.inj_add,
      SynthFacts.pack_u32_length, SynthFacts.index_length,
      SynthFacts.payloads_length by assumption.
    unfold count_of. lia. }
  replace (Z.to_nat (4 + count_of items * es + total pre)) with (length P)
    by lia.
  rewrite skipn_app, skipn_all, Nat.sub_diag. cbn [skipn app].
  unfold plen. rewrite Nat2Z.id.
  rewrite firstn_app, firstn_all, Nat.sub_diag. cbn [firstn].
  apply app_nil_r.
Qed.

(** X7.  Build, open, extract.  For a synthetic archive that satisfies the
    conditions of the round trip, the entry [try_open] returns for an item
    reads back exactly the payload of that item, and [extract_file] writes
    7 zero bytes followed by the payload from its fourth byte on. *)
Theorem round_trip_extraction (fn : str) (es : Z) (items : list Item)
        (pre post : list Item) (it : Item) :
  es = 0x14 \/ es = 0x20 ->
  0 < count_of items < 100000 ->
  Forall (item_ok es) items ->
  0x24 <= file_len (serialize es items) < 2 ^ 30 ->
  (es = 0x20 ->
   forall offset1, u32_at (serialize es items) 0x14 = Value offset1 ->
                   mask offset1 <> 4 + count_of items * 0x14) ->
  items = pre ++ it :: post ->
  exists arc e,
    try_open fn (serialize es items) = Value arc /\
    nth_error (entries arc) (length pre) = Some e /\
    name e = it_name it /\
    content_of (serialize es items) e = it_payload it /\
    extract_file (serialize es items) e
    = (repeat x00 7 ++ skipn 3 (it_payload it), Value tt).
Proof.
  intros Hes Hc Hok Hlen Hno14 E.
  pose proof (serialize_opens fn es items Hes Hc Hok Hlen Hno14) as Hopen.
  exists (mkArcFile fn (expected items (4 + count_of items * es))).
  exists (expected_entry it (4 + count_of items * es + total pre)).
  assert (Hattrs : name (expected_entry it (4 + count_of items * es + total pre))
                   = it_name it /\
                   offset (expected_entry it (4 + count_of items * es + total pre))
                   = 4 + count_of items * es + total pre /\
                   size (expected_entry it (4 + count_of items * es + total pre))
                   = plen it).
  { unfold expected_entry. destruct (expected_kind it); cbn; auto. }
  destruct Hattrs as (Hn & Ho & Hs).
  assert (Htot : total items = total pre + plen it + total post).
  { rewrite E, SynthFacts.total_app. cbn [total fold_right].
    fold (total post). lia. }
  pose proof (SynthFacts.total_nonneg pre) as Hpre.
  pose proof (SynthFacts.total_nonneg post) as Hpost.
  assert (Hpl : 0 <= plen it) by (unfold plen; lia).
  assert (Hfile : file_len (serialize es items)
                  = 4 + count_of items * es + total items).
  { apply SynthFacts.serialize_len; [lia | assumption]. }
  assert (Hcontent : content_of (serialize es items)
                       (expected_entry it (4 + count_of items * es + total pre))
                     = it_payload it).
  { clear Hopen. subst items. apply payload_at; try assumption; nia. }
  split; [exact Hopen|]. split.
  { cbn [entries]. rewrite E at 1.
    rewrite SynthFacts.expected_app, nth_error_app2
      by (rewrite SynthFacts.expected_length; lia).
    now rewrite SynthFacts.expected_length, Nat.sub_diag. }
  split; [exact Hn|]. split; [exact Hcontent|].
  rewrite extract_file_ok by (rewrite ?Ho, ?Hs; nia).
  unfold transformed. now rewrite Hcontent.
Qed.

(* ================================================================== *)
(** * The command line *)
(* ================================================================== *)

Lemma str_eqb_eq (a b : str) : str_eqb a b = true <-> a = b.
Proof.
  revert b. induction a as [|x a IH]; intros [|y b]; cbn [str_eqb];
    try (split; [discriminate | discriminate]); [tauto|].
  rewrite andb_true_iff, Z.eqb_eq, IH. split.
  - intros [-> ->]. reflexivity.
  - intros H. injection H as -> ->. auto.
Qed.

(** The first entry with a given name. *)
Lemma find_first (inp : str) (e : Entry) (d : list Entry) :
  find (fun e => str_eqb (name e) inp) d = Some e <->
  exists pre post,
    d = pre ++ e :: post /\ name e = inp /\
    forall x, In x pre -> name x <> inp.
Proof.
  induction d as [|x d IH]; cbn [find].
  - split; [discriminate|]. intros (pre & post & E & _).
    now destruct pre.
  - destruct (str_eqb (name x) inp) eqn:Ex.
    + apply str_eqb_eq in Ex. split.
      * intros H. injection H as ->. exists [], d.
        split; [reflexivity|]. split; [exact Ex|]. intros y [].
      * intros (pre & post & E & Hn & Hpre). destruct pre as [|y pre].
        -- injection E as ->. reflexivity.
        -- injection E as -> _. elim (Hpre y); [now left | exact Ex].
    + assert (Hne : name x <> inp).
      { intros H. apply str_eqb_eq in H. congruence. }
      rewrite IH. split.
      * intros (pre & post & E & Hn & Hpre). exists (x :: pre), post.
        rewrite E. repeat split; auto.
        intros y [<- | Hy]; [exact Hne | now apply Hpre].
      * intros (pre & post & E & Hn & Hpre). destruct pre as [|y pre].
        -- injection E as -> _. contradiction.
        -- injection E as _ E. exists pre, post.
           repeat split; auto. intros z Hz. apply Hpre. now right.
Qed.

Lemma writes_app (a b : list Event) : writes (a ++ b) = writes a ++ writes b.
Proof.
  induction a as [|[l|d|p c] a IH]; cbn [app writes]; [reflexivity | | |];
    now rewrite IH.
Qed.

Lemma writes_printed (lines : list str) : writes (map Printed lines) = [].
Proof. induction lines; [reflexivity | assumption]. Qed.

Section MainFacts.

Variable env : Env.
Variables arc_filename output_dir : str.
Hypothesis Hmakedirs : makedirs env output_dir = None.
Hypothesis Hopen_rb : open_rb_again env arc_filename = None.
Hypothesis Hprint : forall l, print env l = None.

Local Abbreviation good cur :=
  (fun e => extract_file cur e = (transformed (content_of cur e), Value tt)).
Local Abbreviation dest := (dest_ok env arc_filename output_dir).

Lemma emit_ok (line : str) (cur : bytes) :
  emit env line cur = ([Printed line], cur, Done).
Proof. unfold emit. now rewrite Hprint. Qed.

Lemma emit_all_ok (lines : list str) (cur : bytes) :
  emit_all env lines cur = (map Printed lines, cur, Done).
Proof.
  induction lines as [|l lines IH]; [reflexivity|].
  cbn [emit_all map]. rewrite emit_ok. cbn [and_then]. now rewrite IH.
Qed.

(** One extraction, whatever [extract_file] gives. *)
Lemma extract_file_io_eq (e : Entry) (nm : str) (cur : bytes) :
  dest nm ->
  extract_file_io env arc_filename e output_dir nm cur =
  let '(out, r) := extract_file cur e in
  and_then
    ([MakeDirs output_dir;
      WriteFile (path_join env output_dir nm) out], cur, of_res r)
    (emit env (lit "Extracted and modified " ++ name e
               ++ lit " as " ++ path_join env output_dir nm)).
Proof.
  intros [Hw Hs]. unfold extract_file_io.
  now rewrite Hmakedirs, Hopen_rb, Hw, Hs.
Qed.

Lemma extract_file_io_ok (e : Entry) (nm : str) (cur : bytes) :
  dest nm ->
  good cur e ->
  extract_file_io env arc_filename e output_dir nm cur
  = (extraction env cur e output_dir nm, cur, Done).
Proof.
  intros Hd H. rewrite extract_file_io_eq by assumption. rewrite H.
  cbn [of_res and_then]. rewrite emit_ok. reflexivity.
Qed.

Lemma extract_file_io_fail (e : Entry) (nm : str) (cur out : bytes)
      (x : exn) :
  dest nm ->
  extract_file cur e = (out, Raise x) ->
  extract_file_io env arc_filename e output_dir nm cur
  = ([MakeDirs output_dir; WriteFile (path_join env output_dir nm) out],
     cur, Raised (Exn x)).
Proof.
  intros Hd H. rewrite extract_file_io_eq by assumption. rewrite H.
  reflexivity.
Qed.

Lemma extract_named_ok (out inp : str) (cur : bytes) (d : list Entry) :
  Forall (good cur) d ->
  (existsb (fun e => str_eqb (name e) inp) d = true -> dest out) ->
  extract_named env arc_filename d output_dir out inp cur
  = (match find (fun e => str_eqb (name e) inp) d with
     | Some e => extraction env cur e output_dir out
     | None =>
         [Printed (lit "File " ++ inp ++ lit " not found in the archive")]
     end, cur, Done).
Proof.
  induction 1 as [|e d He Hd IH]; cbn [extract_named find existsb];
    intros Hout.
  - apply emit_ok.
  - destruct (str_eqb (name e) inp).
    + apply extract_file_io_ok; [now apply Hout | assumption].
    + apply IH. exact Hout.
Qed.

Lemma extract_all_ok (cur : bytes) (d : list Entry) :
  Forall (good cur) d ->
  Forall dest (map name d) ->
  extract_all env arc_filename d output_dir cur
  = (flat_map (fun e => extraction env cur e output_dir (name e)) d,
     cur, Done).
Proof.
  induction 1 as [|e d He Hd IH]; intros Hn; [reflexivity|].
  cbn [map] in Hn. inversion Hn as [|? ? Hne Hnd]; subst.
  cbn [extract_all flat_map]. rewrite extract_file_io_ok by assumption.
  cbn [and_then]. now rewrite IH.
Qed.

(** The loop of [--all] stops at the first entry whose extraction
    raises. *)
Lemma extract_all_stops (cur out : bytes) (pre post : list Entry)
      (e : Entry) (x : exn) :
  Forall (good cur) pre ->
  Forall dest (map name pre ++ [name e]) ->
  extract_file cur e = (out, Raise x) ->
  extract_all env arc_filename (pre ++ e :: post) output_dir cur
  = (flat_map (fun e => extraction env cur e output_dir (name e)) pre
     ++ [MakeDirs output_dir;
         WriteFile (path_join env output_dir (name e)) out],
     cur, Raised (Exn x)).
Proof.
  intros Hpre Hn He. induction Hpre as [|a pre Ha Hpre IH].
  - cbn [map app] in Hn. inversion Hn as [|? ? Hne _]; subst.
    cbn [app extract_all flat_map].
    rewrite (extract_file_io_fail _ _ _ _ _ Hne He). reflexivity.
  - cbn [map app] in Hn. inversion Hn as [|? ? Hna Hnd]; subst.
    cbn [app extract_all flat_map]. rewrite extract_file_io_ok by assumption.
    cbn [and_then]. rewrite (IH Hnd). now rewrite <- app_assoc.
Qed.

(** [main] after the listing. *)
Lemma main_eq (l : bool) (ex : option (str * str)) (al : bool)
      (data : bytes) (arc : ArcFile) :
  try_open arc_filename data = Value arc ->
  main env (mkArgs arc_filename l ex al output_dir) data =
  and_then
    (if l then map Printed (listing_lines arc_filename (entries arc))
     else [], data, Done)
    (fun cur =>
       and_then
         (match ex with
          | Some (output_name, input_name) =>
              extract_named env arc_filename (entries arc) output_dir
                            output_name input_name cur
          | None => ([], cur, Done)
          end)
         (fun cur =>
            if al
            then extract_all env arc_filename (entries arc) output_dir cur
            else ([], cur, Done))).
Proof.
  intros Hopen. unfold main.
  cbn [a_filename a_list a_extract a_all a_output]. rewrite Hopen.
  destruct l; [rewrite emit_all_ok|]; reflexivity.
Qed.

(** After a successful open, [main] runs to its end when every
    extraction succeeds. *)
Lemma main_opened (l : bool) (ex : option (str * str)) (al : bool)
      (data : bytes) (arc : ArcFile) :
  try_open arc_filename data = Value arc ->
  Forall (good data) (entries arc) ->
  Forall dest (destinations (mkArgs arc_filename l ex al output_dir)
                            (entries arc)) ->
  main env (mkArgs arc_filename l ex al output_dir) data =
  ((if l then map Printed (listing_lines arc_filename (entries arc)) else [])
   ++ match ex with
      | None => []
      | Some (out, inp) =>
          match find (fun e => str_eqb (name e) inp) (entries arc) with
          | Some e => extraction env data e output_dir out
          | None =>
              [Printed (lit "File " ++ inp
                        ++ lit " not found in the archive")]
          end
      end
   ++ (if al
       then flat_map (fun e => extraction env data e output_dir (name e))
                     (entries arc)
       else []),
   data, Done).
Proof.
  intros Hopen Hgood Hdest. rewrite (main_eq _ _ _ _ _ Hopen).
  unfold destinations in Hdest. cbn [a_extract a_all] in Hdest.
  apply Forall_app in Hdest as [Hex Hall].
  cbn [and_then].
  assert (Eall : (if al
                  then extract_all env arc_filename (entries arc) output_dir
                                   data
                  else ([], data, Done))
                 = (if al
                    then flat_map (fun e => extraction env data e output_dir
                                                       (name e))
                                  (entries arc)
                    else [], data, Done)).
  { destruct al; [now apply extract_all_ok | reflexivity]. }
  destruct ex as [[out inp]|].
  - rewrite extract_named_ok; [|assumption|].
    + cbn [and_then]. rewrite Eall. reflexivity.
    + intros Hex'. rewrite Hex' in Hex.
      now inversion Hex.
  - cbn [and_then]. rewrite Eall. reflexivity.
Qed.

(** With [--all] and without [--extract], [main] stops at the first entry
    whose extraction raises. *)
Lemma main_stops (l : bool) (data out : bytes) (arc : ArcFile)
      (pre post : list Entry) (e : Entry) (x : exn) :
  try_open arc_filename data = Value arc ->
  entries arc = pre ++ e :: post ->
  Forall (good data) pre ->
  Forall dest (map name pre ++ [name e]) ->
  extract_file data e = (out, Raise x) ->
  main env (mkArgs arc_filename l None true output_dir) data =
  ((if l then map Printed (listing_lines arc_filename (entries arc)) else [])
   ++ flat_map (fun e => extraction env data e output_dir (name e)) pre
   ++ [MakeDirs output_dir;
       WriteFile (path_join env output_dir (name e)) out],
   data, Raised (Exn x)).
Proof.
  intros Hopen Hsplit Hpre Hn He.
  rewrite (main_eq _ _ _ _ _ Hopen).
  pose proof (extract_all_stops _ _ _ post _ _ Hpre Hn He) as Hstop.
  rewrite <- Hsplit in Hstop.
  cbn [and_then]. rewrite Hstop. reflexivity.
Qed.

Lemma writes_extract_all (data : bytes) (d : list Entry) :
  writes (flat_map (fun e => extraction env data e output_dir (name e)) d)
  = map (fun e => (path_join env output_dir (name e),
                   transformed (content_of data e))) d.
Proof.
  induction d as [|e d IH]; [reflexivity|].
  cbn [flat_map map]. rewrite writes_app, IH. reflexivity.
Qed.

End MainFacts.

Lemma good_entries (fn : str) (data : bytes) (arc : ArcFile) :
  try_open fn data = Value arc ->
  file_len data < 2 ^ 32 ->
  forall d, incl d (entries arc) ->
  Forall (fun e => -1 <= size e) d ->
  Forall (fun e => extract_file data e
                   = (transformed (content_of data e), Value tt)) d.
Proof.
  intros Hopen Hlen d Hincl Hs.
  pose proof (directory_extract fn data arc Hopen Hlen) as Hx.
  rewrite Forall_forall in *. intros e He.
  apply (Hx e (Hincl e He)). now apply Hs.
Qed.

(** X8.  What [main] does, in order.  If [try_open] raises, so does
    [main], before any output.  If it returns [None], [main] prints the
    one line [Failed to open ...].  Otherwise, when the calls to the
    environment succeed for the files to write and none of these is the
    archive, for an archive of less than 4 GiB with no entry size below
    [-1], [main] runs to its end and leaves the archive as it was: it
    prints the listing if asked; for [--extract OUTPUT INPUT] it extracts
    the first entry named [INPUT], and only that one, under [OUTPUT], or
    prints that the file was not found; then for [--all] it extracts every
    entry under its own name, in index order. *)
Theorem main_behaviour (env : Env) (args : Args) (data : bytes) :
  (forall e, try_open (a_filename args) data = Raise e ->
             main env args data = ([], data, Raised (Exn e))) /\
  (try_open (a_filename args) data = ReturnNone ->
   main env args data
   = emit env (lit "Failed to open " ++ a_filename args) data) /\
  (forall arc,
     try_open (a_filename args) data = Value arc ->
     friendly env (a_filename args) (a_output args)
              (destinations args (entries arc)) ->
     file_len data < 2 ^ 32 ->
     Forall (fun e => -1 <= size e) (entries arc) ->
     main env args data =
     ((if a_list args
       then map Printed (listing_lines (a_filename args) (entries arc))
       else [])
      ++ match a_extract args with
         | None => []
         | Some (out, inp) =>
             match find (fun e => str_eqb (name e) inp) (entries arc) with
             | Some e => extraction env data e (a_output args) out
             | None =>
                 [Printed (lit "File " ++ inp
                           ++ lit " not found in the archive")]
             end
         end
      ++ (if a_all args
          then flat_map (fun e => extraction env data e (a_output args)
                                             (name e))
                        (entries arc)
          else []),
      data, Done)).
Proof.
  split; [|split].
  - intros e H. unfold main. now rewrite H.
  - intros H. unfold main. now rewrite H.
  - intros arc Hopen (Hm & Hr & Hp & Hd) Hlen Hs.
    destruct args as [fn l ex al dir].
    cbn [a_filename a_list a_extract a_all a_output] in *.
    apply main_opened; try assumption.
    eapply good_entries; eauto. apply incl_refl.
Qed.

(** X9.  The files [main] writes after a successful open of an archive of
    less than 4 GiB, when the calls to the environment succeed for the
    files to write and none of these is the archive.  When no entry size
    is below [-1]: with [--extract OUTPUT INPUT] one file, [OUTPUT] in the
    output directory, from the first entry named [INPUT], and none when no
    entry has that name; with [--all] then one file per entry, in index
    order, named after the entry; each holds 7 zero bytes followed by the
    entry's content from its fourth byte on.  With [--all] alone and an
    entry whose size is below [-1]: the files of the entries before the
    first such entry, then the file of that entry holding 4 zero bytes
    only; [main] ends there with [ValueError], and the entries after it
    are not extracted. *)
Theorem main_files_written (env : Env) (args : Args) (data : bytes)
        (arc : ArcFile) :
  try_open (a_filename args) data = Value arc ->
  file_len data < 2 ^ 32 ->
  (friendly env (a_filename args) (a_output args)
            (destinations args (entries arc)) ->
   Forall (fun e => -1 <= size e) (entries arc) ->
   writes (fst (fst (main env args data))) =
   match a_extract args with
   | None => []
   | Some (out, inp) =>
       match find (fun e => str_eqb (name e) inp) (entries arc) with
       | Some e => [(path_join env (a_output args) out,
                     transformed (content_of data e))]
       | None => []
       end
   end
   ++ (if a_all args
       then map (fun e => (path_join env (a_output args) (name e),
                           transformed (content_of data e)))
                (entries arc)
       else [])) /\
  (forall pre e post,
     a_extract args = None ->
     a_all args = true ->
     entries arc = pre ++ e :: post ->
     friendly env (a_filename args) (a_output args)
              (map name pre ++ [name e]) ->
     Forall (fun e => -1 <= size e) pre ->
     size e < -1 ->
     writes (fst (fst (main env args data))) =
     map (fun e => (path_join env (a_output args) (name e),
                    transformed (content_of data e))) pre
     ++ [(path_join env (a_output args) (name e), [x00; x00; x00; x00])]
     /\ snd (main env args data) = Raised (Exn ValueError)) /\
  (forall out inp e,
     a_extract args = Some (out, inp) ->
     (find (fun e => str_eqb (name e) inp) (entries arc) = Some e <->
      exists pre post,
        entries arc = pre ++ e :: post /\ name e = inp /\
        forall x, In x pre -> name x <> inp)).
Proof.
  intros Hopen Hlen. destruct args as [fn l ex al dir].
  cbn [a_filename a_list a_extract a_all a_output] in *.
  assert (Hl : writes (if l
                       then map Printed (listing_lines fn (entries arc))
                       else []) = []).
  { destruct l; [apply writes_printed | reflexivity]. }
  split; [|split].
  - intros (Hm & Hr & Hp & Hd) Hs.
    rewrite (main_opened env fn dir Hm Hr Hp l ex al data arc Hopen)
      by (assumption || (eapply good_entries; eauto; apply incl_refl)).
    cbn [fst]. rewrite !writes_app, Hl. cbn [app]. f_equal.
    + destruct ex as [[out inp]|]; [|reflexivity].
      destruct (find _ (entries arc)); reflexivity.
    + destruct al; [apply writes_extract_all | reflexivity].
  - intros pre e post -> -> Hsplit (Hm & Hr & Hp & Hd) Hpre He.
    assert (Hin : In e (entries arc))
      by (rewrite Hsplit; apply in_elt).
    pose proof (directory_extract fn data arc Hopen Hlen) as Hx.
    rewrite Forall_forall in Hx. destruct (Hx e Hin) as [Hbad _].
    rewrite (main_stops env fn dir Hm Hr Hp l data [x00; x00; x00; x00] arc
               pre post e ValueError Hopen Hsplit).
    + cbn [fst snd]. split; [|reflexivity].
      rewrite !writes_app, Hl, writes_extract_all. reflexivity.
    + eapply good_entries; eauto.
      rewrite Hsplit. apply incl_appl, incl_refl.
    + exact Hd.
    + now apply Hbad.
  - intros out inp e _. apply find_first.
Qed.

(** X10.  The file name is only stored.  [try_open] never looks at the
    name it is given: under another name the same bytes give the same
    exception, the same [None], or the same entries, with the new name as
    the directory's [filename]. *)
Theorem filename_only_stored (fn fn' : str) (data : bytes) :
  try_open fn' data =
  match try_open fn data with
  | Value arc => Value (mkArcFile fn' (entries arc))
  | ReturnNone => ReturnNone
  | Raise e => Raise e
  end.
Proof.
  rewrite !try_open_unfold.
  destruct (u32_at data 0) as [count| |e]; cbn [bind]; try reflexivity.
  destruct (is_sane_count count); cbn [negb]; [|reflexivity].
  destruct (u32_at data 0x14) as [o1| |e]; cbn [bind]; try reflexivity.
  destruct (u32_at data 0x20) as [o2| |e]; cbn [bind]; try reflexivity.
  destruct (select_layout count o1 o2) as [[es first]|]; [|reflexivity].
  destruct (run_loop data count es first (Z.to_nat count)) as [st| |e];
    reflexivity.
Qed.

(** ** The added properties on the sample files *)

Lemma cut42_header : header cut42 2 0x14.
Proof.
  split; [vm_compute; reflexivity|]. split; [reflexivity|].
  exists 44, 0, 44. repeat split; vm_compute; reflexivity.
Qed.

Lemma unordered_opens : try_open archive_name unordered = Value unordered_arc.
Proof. vm_compute. reflexivity. Qed.

Lemma accepted_file_holds_index_witness :
  (exists count es,
     header three count es /\
     length (entries three_arc) = Z.to_nat count /\
     0 < count < 100000 /\
     0x24 <= file_len three /\
     4 + count * es <= file_len three) /\
  header cut42 2 0x14 /\
  file_len cut42 < 4 + 2 * 0x14 /\
  (try_open archive_name cut42 = ReturnNone \/
   exists e, try_open archive_name cut42 = Raise e).
Proof.
  assert (Hcut : file_len cut42 < 4 + 2 * 0x14) by (vm_compute; reflexivity).
  split; [|split; [exact cut42_header | split; [exact Hcut|]]].
  - exact (proj1 (accepted_file_holds_index archive_name three)
                 three_arc three_opens).
  - exact (proj2 (accepted_file_holds_index archive_name cut42)
                 2 0x14 cut42_header Hcut).
Defined.

Lemma entry_invariants_witness :
  try_open archive_name three = Value three_arc /\
  Forall (fun e =>
            is_valid_entry_name (name e) = true /\
            rstrip 0 (name e) = name e /\
            type e = lit "image" /\
            0 <= offset e < 2 ^ 30 /\
            0 <= offset e + size e /\
            match flags e with
            | None => True
            | Some f => (f = 0 \/ f = 2 \/ f = 3) /\ ends_iaf (name e) = false
            end)
         (entries three_arc).
Proof.
  split; [exact three_opens|].
  exact (entry_invariants archive_name three three_arc three_opens).
Defined.

Lemma example_12_header : header example_12 1 0x14.
Proof.
  split; [vm_compute; reflexivity|]. split; [reflexivity|].
  exists 24, 1650538808, 24. repeat split; vm_compute; reflexivity.
Qed.

Lemma payload_independence_witness :
  0x24 <= file_len example_12 /\
  (forall count es, header example_12 count es ->
                    4 + count * es <= file_len example_12) /\
  length [x01] = length [x02] /\
  try_open archive_name (example_12 ++ [x01])
  = try_open archive_name (example_12 ++ [x02]).
Proof.
  assert (H1 : 0x24 <= file_len example_12) by (vm_compute; discriminate).
  assert (H2 : forall count es, header example_12 count es ->
                                4 + count * es <= file_len example_12).
  { intros count es Hh.
    destruct (header_unique _ _ _ _ _ Hh example_12_header) as [-> ->].
    vm_compute. discriminate. }
  split; [exact H1|]. split; [exact H2|]. split; [reflexivity|].
  exact (payload_independence archive_name example_12 [x01] [x02]
           H1 H2 eq_refl).
Defined.

Lemma extract_file_cases_witness :
  extract_file three (Entry_ (lit "b.IaF") (lit "image") (2 ^ 63) 3)
  = ([x00; x00; x00; x00], Raise ValueError) /\
  extract_file three (Entry_ (lit "b.IaF") (lit "image") (-1) 3)
  = ([x00; x00; x00; x00], Raise OSError) /\
  extract_file three (Entry_ (lit "b.IaF") (lit "image") 112 (2 ^ 63))
  = ([x00; x00; x00; x00], Raise OverflowError) /\
  extract_file unordered (CgfEntry (lit "b") (lit "image") 80 (-10) 0)
  = ([x00; x00; x00; x00], Raise ValueError) /\
  extract_file three (CgfEntry (lit "A.IMG") (lit "image") 100 12 2)
  = (repeat x00 7 ++ ascii_bytes "3456789ab", Value tt) /\
  extract_file three (CgfEntry (lit "A.IMG") (lit "image") 100 (-1) 2)
  = (repeat x00 7 ++ ascii_bytes "3456789abxyzpayload", Value tt) /\
  extract_file three (Entry_ (lit "b.IaF") (lit "image") 122 3)
  = (repeat x00 7, Value tt).
Proof.
  split; [|split; [|split; [|split; [|split; [|split]]]]].
  - apply (proj1 (extract_file_cases three _)). right. cbn [offset]. lia.
  - apply (proj1 (proj2 (extract_file_cases three _))). cbn [offset]. lia.
  - apply (proj1 (proj2 (proj2 (extract_file_cases three _))));
      cbn [offset size]; lia.
  - apply (proj1 (proj2 (proj2 (proj2 (extract_file_cases unordered _)))));
      cbn [offset size]; lia.
  - destruct (extract_file_cases three
                (CgfEntry (lit "A.IMG") (lit "image") 100 12 2))
      as (_ & _ & _ & _ & H & _).
    destruct H as (E & C & _); [cbn [offset]; lia | cbn [size]; lia |].
    rewrite E, C. vm_compute. reflexivity.
  - destruct (extract_file_cases three
                (CgfEntry (lit "A.IMG") (lit "image") 100 (-1) 2))
      as (_ & _ & _ & _ & H & _).
    destruct H as (E & C & _); [cbn [offset]; lia | cbn [size]; lia |].
    rewrite E, C. vm_compute. reflexivity.
  - apply (proj2 (proj2 (proj2 (proj2 (proj2 (extract_file_cases three _))))));
      [split; [vm_compute; discriminate | cbn [offset]; lia]
      | cbn [size]; lia].
Defined.

Lemma directory_extraction_witness :
  try_open archive_name unordered = Value unordered_arc /\
  extract_file unordered (CgfEntry (lit "b") (lit "image") 80 (-10) 0)
  = ([x00; x00; x00; x00], Raise ValueError) /\
  try_open archive_name three = Value three_arc /\
  extract_file three (Entry_ (lit "b.IaF") (lit "image") 112 3)
  = (transformed
       (content_of three (Entry_ (lit "b.IaF") (lit "image") 112 3)),
     Value tt) /\
  112 + 3 <= file_len three /\
  Z.of_nat (length (content_of three
                      (Entry_ (lit "b.IaF") (lit "image") 112 3))) = 3 /\
  Z.of_nat (length (fst (extract_file three
                           (Entry_ (lit "b.IaF") (lit "image") 112 3))))
  = 4 + Z.max 3 3.
Proof.
  assert (Hu : file_len unordered < 2 ^ 32) by (vm_compute; reflexivity).
  assert (Ht : file_len three < 2 ^ 32) by (vm_compute; reflexivity).
  assert (Hinu : In (CgfEntry (lit "b") (lit "image") 80 (-10) 0)
                    (entries unordered_arc))
    by (right; left; reflexivity).
  assert (Hint : In (Entry_ (lit "b.IaF") (lit "image") 112 3)
                    (entries three_arc))
    by (right; left; reflexivity).
  assert (Hpos : Forall (fun x => 0 <= size x) (entries three_arc))
    by (repeat constructor; cbn [size]; lia).
  destruct (directory_extraction archive_name unordered unordered_arc _
              unordered_opens Hu Hinu) as (Hbad & _).
  destruct (directory_extraction archive_name three three_arc _
              three_opens Ht Hint) as (_ & Hgood & Hin).
  split; [exact unordered_opens|].
  split; [apply Hbad; cbn [size]; lia|].
  split; [exact three_opens|].
  split; [apply Hgood; cbn [size]; lia|].
  exact (Hin Hpos).
Defined.

Lemma round_trip_extraction_witness :
  0 < count_of three_items < 100000 /\
  Forall (item_ok 0x20) three_items /\
  0x24 <= file_len (serialize 0x20 three_items) < 2 ^ 30 /\
  (forall offset1,
     u32_at (serialize 0x20 three_items) 0x14 = Value offset1 ->
     mask offset1 <> 4 + count_of three_items * 0x14) /\
  exists arc e,
    try_open archive_name (serialize 0x20 three_items) = Value arc /\
    nth_error (entries arc) 1 = Some e /\
    name e = lit "b.IaF" /\
    content_of (serialize 0x20 three_items) e = ascii_bytes "xyz" /\
    extract_file (serialize 0x20 three_items) e
    = (repeat x00 7 ++ skipn 3 (ascii_bytes "xyz"), Value tt).
Proof.
  assert (H1 : 0x20 = 0x14 \/ 0x20 = 0x20) by (right; reflexivity).
  assert (H2 : 0 < count_of three_items < 100000)
    by (vm_compute; split; reflexivity).
  assert (H3 : Forall (item_ok 0x20) three_items)
    by (unfold three_items; item_ok_tac).
  assert (H4 : 0x24 <= file_len (serialize 0x20 three_items) < 2 ^ 30).
  { change (file_len (serialize 0x20 three_items)) with 122. lia. }
  assert (H5 : forall offset1,
             u32_at (serialize 0x20 three_items) 0x14 = Value offset1 ->
             mask offset1 <> 4 + count_of three_items * 0x14).
  { intros o1 Ho1. vm_compute in Ho1. injection Ho1 as <-.
    vm_compute. discriminate. }
  split; [exact H2|]. split; [exact H3|]. split; [exact H4|].
  split; [exact H5|].
  exact (round_trip_extraction archive_name 0x20 three_items
           [mkItem (lit "A.IMG") 2 (ascii_bytes "0123456789ab")]
           [mkItem (0x20AC :: lit "c.iafx") 1 (ascii_bytes "payload")]
           (mkItem (lit "b.IaF") 3 (ascii_bytes "xyz"))
           H1 H2 H3 H4 (fun _ => H5) eq_refl).
Defined.

(** In [plain_env] a file of [out] can be written and is not the archive
    [sample.cgf]. *)
Lemma plain_env_friendly (names : list str) :
  friendly plain_env archive_name (lit "out") names.
Proof.
  repeat split. apply Forall_forall. intros nm _.
  split; [reflexivity|].
  cbn [same_file path_join plain_env]. unfold posix_join.
  destruct (str_eqb (firstn 1 nm) [47]) eqn:E.
  - destruct nm as [|c t]; [discriminate|].
    cbn [firstn str_eqb] in E. apply andb_true_iff in E as [E _].
    apply Z.eqb_eq in E. subst c. vm_compute. reflexivity.
  - vm_compute. reflexivity.
Qed.

Lemma main_behaviour_witness :
  main plain_env (mkArgs archive_name true None true (lit "out")) bad_utf8
  = ([], bad_utf8, Raised (Exn UnicodeDecodeError)) /\
  main plain_env (mkArgs archive_name true None true (lit "out")) no_layout
  = ([Printed (lit "Failed to open sample.cgf")], no_layout, Done) /\
  main plain_env
       (mkArgs archive_name true (Some (lit "x.bin", lit "b.IaF")) true
               (lit "out"))
       three
  = ([Printed (lit "Contents of sample.cgf:");
      Printed (lit "A.IMG (12 bytes)");
      Printed (lit "b.IaF (3 bytes)");
      Printed (0x20AC :: lit "c.iafx (7 bytes)");
      MakeDirs (lit "out");
      WriteFile (lit "out/x.bin") (repeat x00 7);
      Printed (lit "Extracted and modified b.IaF as out/x.bin");
      MakeDirs (lit "out");
      WriteFile (lit "out/A.IMG") (repeat x00 7 ++ ascii_bytes "3456789ab");
      Printed (lit "Extracted and modified A.IMG as out/A.IMG");
      MakeDirs (lit "out");
      WriteFile (lit "out/b.IaF") (repeat x00 7);
      Printed (lit "Extracted and modified b.IaF as out/b.IaF");
      MakeDirs (lit "out");
      WriteFile (lit "out/" ++ 0x20AC :: lit "c.iafx")
                (repeat x00 7 ++ ascii_bytes "load");
      Printed (lit "Extracted and modified " ++ 0x20AC :: lit "c.iafx as out/"
               ++ 0x20AC :: lit "c.iafx")],
     three, Done).
Proof.
  split; [|split].
  - apply (proj1 (main_behaviour plain_env
                    (mkArgs archive_name true None true (lit "out"))
                    bad_utf8)).
    vm_compute. reflexivity.
  - rewrite (proj1 (proj2 (main_behaviour plain_env
                    (mkArgs archive_name true None true (lit "out"))
                    no_layout))) by (vm_compute; reflexivity).
    vm_compute. reflexivity.
  - rewrite (proj2 (proj2 (main_behaviour plain_env
               (mkArgs archive_name true (Some (lit "x.bin", lit "b.IaF"))
                       true (lit "out"))
               three)) three_arc three_opens (plain_env_friendly _)).
    + vm_compute. reflexivity.
    + vm_compute. reflexivity.
    + repeat constructor; cbn [size]; lia.
Defined.

Lemma main_files_written_witness :
  try_open archive_name three = Value three_arc /\
  try_open archive_name unordered = Value unordered_arc /\
  writes (fst (fst (main plain_env
                      (mkArgs archive_name false
                              (Some (lit "x.bin", lit "A.IMG")) true
                              (lit "out"))
                      three)))
  = [(lit "out/x.bin", repeat x00 7 ++ ascii_bytes "3456789ab");
     (lit "out/A.IMG", repeat x00 7 ++ ascii_bytes "3456789ab");
     (lit "out/b.IaF", repeat x00 7);
     (lit "out/" ++ 0x20AC :: lit "c.iafx",
      repeat x00 7 ++ ascii_bytes "load")] /\
  writes (fst (fst (main plain_env
                      (mkArgs archive_name false None true (lit "out"))
                      unordered)))
  = [(lit "out/a", repeat x00 20); (lit "out/b", repeat x00 4)] /\
  snd (main plain_env (mkArgs archive_name false None true (lit "out"))
            unordered)
  = Raised (Exn ValueError).
Proof.
  assert (Ht : file_len three < 2 ^ 32) by (vm_compute; reflexivity).
  assert (Hu : file_len unordered < 2 ^ 32) by (vm_compute; reflexivity).
  destruct (main_files_written plain_env
              (mkArgs archive_name false (Some (lit "x.bin", lit "A.IMG"))
                      true (lit "out"))
              three three_arc three_opens Ht)
    as (H1 & _).
  destruct (main_files_written plain_env
              (mkArgs archive_name false None true (lit "out"))
              unordered unordered_arc unordered_opens Hu)
    as (_ & H2 & _).
  destruct (H2 [CgfEntry (lit "a") (lit "image") 64 16 0]
               (CgfEntry (lit "b") (lit "image") 80 (-10) 0)
               [CgfEntry (lit "c") (lit "image") 70 30 0]
               eq_refl eq_refl eq_refl (plain_env_friendly _)
               ltac:(repeat constructor; cbn [size]; lia)
               ltac:(cbn [size]; lia)) as [Hw Hs].
  split; [exact three_opens|]. split; [exact unordered_opens|].
  split; [|split; [|exact Hs]].
  - rewrite H1;
      [| apply plain_env_friendly | repeat constructor; cbn [size]; lia].
    vm_compute. reflexivity.
  - rewrite Hw. vm_compute. reflexivity.
Defined.
